(** * tessa: search normalisation and price look-up, verified against the code

    A shallow embedding of [tessa/investing_search.py] and
    [tessa/price/price.py].

    Conventions of the embedding:
    - Python exceptions are values of [exn]; a computation that may raise
      returns a [result].
    - Calls to the third-party provider ([investpy]) are recorded in a trace,
      so that "which endpoints were queried" is part of a function's outcome.
    - Python dicts with string keys are [gmap string _], Python sets are
      [gset _]; iterating a set yields [elements], whose order is as
      unspecified as Python's.
    - [str.lower] and [str.upper] are modelled on the ASCII range.
    - A call of the memoised [price_history] is given by its arguments as
      written, positional and keyword: [lru_cache] keys on these, before
      the defaults of the signature are filled in. *)

From Stdlib Require Import ZArith Ascii String.
From stdpp Require Import gmap strings list fin_maps.

Set Warnings "-clear-no-such-hyp".

(** ** Python runtime: exceptions, results, traces *)

Module Py.

Inductive exn : Set :=
| KeyError
| AttributeError
| IndexError
| ValueError
| RuntimeError
| TypeError
| OtherError.

#[global] Instance exn_eq_dec : EqDecision exn.
Proof. solve_decision. Defined.

Inductive result (A : Type) : Type :=
| Ok (a : A)
| Raise (e : exn).
Arguments Ok {A} a.
Arguments Raise {A} e.

#[global] Instance result_ret : MRet result := @Ok.
#[global] Instance result_bind : MBind result := λ A B f m,
  match m with
  | Ok a => f a
  | Raise e => Raise e
  end.

(** [mapM] for [result]: the first exception aborts the loop. *)
Fixpoint mapR {A B} (f : A → result B) (l : list A) : result (list B) :=
  match l with
  | [] => Ok []
  | x :: l' => y ← f x; ys ← mapR f l'; Ok (y :: ys)
  end.

(** A computation that performs provider calls [E] and then returns or
    raises: the trace of calls made so far is kept in either case. *)
Definition traced (E A : Type) : Type := list E * result A.

Definition tell {E} (e : E) : traced E unit := ([e], Ok tt).
Definition lift {E A} (r : result A) : traced E A := ([], r).

#[global] Instance traced_ret {E} : MRet (traced E) := λ A a, ([], Ok a).
#[global] Instance traced_bind {E} : MBind (traced E) := λ A B f m,
  match m with
  | (t, Ok a) => let '(t', r) := f a in (t ++ t', r)
  | (t, Raise e) => (t, Raise e)
  end.

(** A [for] loop threading an accumulator. *)
Fixpoint for_each {E A B} (l : list A) (body : B → A → traced E B) (acc : B)
  : traced E B :=
  match l with
  | [] => mret acc
  | x :: l' => acc' ← body acc x; for_each l' body acc'
  end.

(** [str.lower] / [str.upper], on the ASCII letters. *)
Definition lower_ascii (c : ascii) : ascii :=
  let n := N_of_ascii c in
  if ((65 <=? n) && (n <=? 90))%N then ascii_of_N (n + 32) else c.

Definition upper_ascii (c : ascii) : ascii :=
  let n := N_of_ascii c in
  if ((97 <=? n) && (n <=? 122))%N then ascii_of_N (n - 32) else c.

Fixpoint lower (s : string) : string :=
  match s with
  | EmptyString => EmptyString
  | String c s' => String (lower_ascii c) (lower s')
  end.

Fixpoint upper (s : string) : string :=
  match s with
  | EmptyString => EmptyString
  | String c s' => String (upper_ascii c) (upper s')
  end.

(** A character is a lower-case letter when [str.upper] changes it. *)
Definition is_lower_ascii (c : ascii) : bool :=
  let n := N_of_ascii c in ((97 <=? n) && (n <=? 122))%N.

Fixpoint has_lower (s : string) : bool :=
  match s with
  | EmptyString => false
  | String c s' => is_lower_ascii c || has_lower s'
  end.

End Py.
Import Py.

(** ** [tessa/price/price.py] *)

Module Price.

(** A timestamp of the price index. *)
Abbreviation Timestamp := Z (only parsing).

(** A reference to a dataframe object on the Python heap. *)
Abbreviation ref := nat (only parsing).

(** [PriceHistory(df, currency)]: a named tuple holding a reference to the
    dataframe and the effective currency. *)
Record PriceHistory : Type := {
  ph_df : ref;
  ph_currency : string;
}.

(** The arguments of a call as written at the call site: the positional
    arguments, then the keyword arguments in the order given. [lru_cache]
    files a call under exactly these, before any default is filled in:
    [price_history("AAPL")], [price_history("AAPL", "yahoo", "USD")] and
    [price_history("AAPL", source="yahoo")] are three different keys. *)
Abbreviation CallArgs :=
  (list string * list (string * string))%type (only parsing).

(** What a source is asked: [(query, source, currency_preference)]. *)
Abbreviation SourceQuery := (string * string * string)%type (only parsing).

(** The call [price_history(query, source, currency_preference)] with all
    three arguments given by position, as lines 62, 76 and 88 write it. *)
Definition positional (query source currency_preference : string) : CallArgs :=
  ([query; source; currency_preference], []).

(** Binding the arguments of a call to the parameters of lines 19-23,
    [query], [source="yahoo"] and [currency_preference="USD"]: a keyword that
    names no parameter, a parameter given twice, more than three positional
    arguments and a call without [query] are each a [TypeError]. *)
Fixpoint bind_keywords (kwargs : list (string * string))
    (query source currency_preference : option string) : result SourceQuery :=
  match kwargs with
  | [] =>
      match query with
      | Some q =>
          Ok (q, default "yahoo" source, default "USD" currency_preference)
      | None => Raise TypeError
      end
  | (name, value) :: kwargs' =>
      if decide (name = "query") then
        match query with
        | None => bind_keywords kwargs' (Some value) source currency_preference
        | Some _ => Raise TypeError
        end
      else if decide (name = "source") then
        match source with
        | None => bind_keywords kwargs' query (Some value) currency_preference
        | Some _ => Raise TypeError
        end
      else if decide (name = "currency_preference") then
        match currency_preference with
        | None => bind_keywords kwargs' query source (Some value)
        | Some _ => Raise TypeError
        end
      else Raise TypeError
  end.

Definition bind_arguments (args : CallArgs) : result SourceQuery :=
  match args.1 with
  | [] => bind_keywords args.2 None None None
  | [q] => bind_keywords args.2 (Some q) None None
  | [q; s] => bind_keywords args.2 (Some q) (Some s) None
  | [q; s; c] => bind_keywords args.2 (Some q) (Some s) (Some c)
  | _ => Raise TypeError
  end.

(** A price dataframe: rows of index label and ["close"] value. *)
Abbreviation Frame float := (list (Timestamp * float)) (only parsing).

Section WithSources.

(** Close prices are floats that are passed along and never computed with;
    [float(x)] of such a value is the value itself. *)
Variable float : Type.

Local Abbreviation Frame := (Frame float) (only parsing).

Definition index (f : Frame) : list Timestamp := f.*1.

(** [PricePoint(when, price, currency)] *)
Record PricePoint : Type := {
  pp_when : Timestamp;
  pp_price : float;
  pp_currency : string;
}.

(** [sources.get_source(source)] and, on the source it returns,
    [get_price_history_bruteforcefully(query, currency_preference)]. The
    latter talks to the network: its answer may depend on how many queries
    were made before. *)
Variable Source : Type.
Variable get_source : string → result Source.
Variable get_price_history_bruteforcefully :
  Source → nat → string → string → result (Frame * string).

(** The interpreter state the module's functions run in: the dataframe
    objects, the memo table of [price_history], and the queries sent to the
    underlying sources so far. *)
Record State : Type := {
  heap : list Frame;
  cache : gmap CallArgs PriceHistory;
  queries : list SourceQuery;
}.

Definition initial : State := {| heap := []; cache := ∅; queries := [] |}.

(** The caller assigns into a dataframe it holds a reference to. *)
Definition mutate (r : ref) (f : Frame) (σ : State) : State :=
  {| heap := <[r := f]> (heap σ); cache := cache σ; queries := queries σ |}.

(** [lru_cache(maxsize=None)(func)], with [wraps] keeping the signature: the
    key is the arguments as the caller wrote them; a hit returns the stored
    object; a miss runs [func] on these arguments and stores what it returns;
    an exception is not stored. *)
Definition custom_cache_wrapper
    (func : CallArgs → State → State * result PriceHistory)
    (args : CallArgs) (σ : State) : State * result PriceHistory :=
  match cache σ !! args with
  | Some ph => (σ, Ok ph)
  | None =>
      match func args σ with
      | (σ', Ok ph) =>
          ({| heap := heap σ'; cache := <[args := ph]> (cache σ');
              queries := queries σ' |}, Ok ph)
      | (σ', Raise e) => (σ', Raise e)
      end
  end.

(** The body of [price_history], lines 35-40 (the rate limiter only waits).
    [df.copy()] allocates a new dataframe object. *)
Definition price_history_body (key : SourceQuery) (σ : State)
  : State * result PriceHistory :=
  let '(query, source, currency_preference) := key in
  match get_source source with
  | Raise e => (σ, Raise e)
  | Ok src =>
      let σ1 := {| heap := heap σ; cache := cache σ;
                   queries := queries σ ++ [key] |} in
      match get_price_history_bruteforcefully
              src (length (queries σ)) query currency_preference with
      | Raise e => (σ1, Raise e)
      | Ok (df, effective_currency) =>
          ({| heap := heap σ1 ++ [df]; cache := cache σ1;
              queries := queries σ1 |},
           Ok {| ph_df := length (heap σ1);
                 ph_currency := upper effective_currency |})
      end
  end.

(** The function of lines 19-40 before it is decorated: the arguments are
    bound to the parameters, then the body runs. *)
Definition price_history_function (args : CallArgs) (σ : State)
  : State * result PriceHistory :=
  match bind_arguments args with
  | Ok key => price_history_body key σ
  | Raise e => (σ, Raise e)
  end.

(** [price_history], line 18: the decorated function, applied to the
    arguments of a call. *)
Definition price_history (args : CallArgs)
  : State → State * result PriceHistory :=
  custom_cache_wrapper price_history_function args.

(** Dereferencing a dataframe reference. *)
Definition deref (σ : State) (r : ref) : result Frame :=
  match heap σ !! r with
  | Some f => Ok f
  | None => Raise OtherError
  end.

(** [df.iloc[i]] for an integer [i]; negative positions count from the end. *)
Definition iloc (f : Frame) (i : Z) : result (Timestamp * float) :=
  let n := Z.of_nat (length f) in
  let j := if (i <? 0)%Z then (n + i)%Z else i in
  if ((0 <=? j) && (j <? n))%Z then
    match f !! Z.to_nat j with
    | Some row => Ok row
    | None => Raise IndexError
    end
  else Raise IndexError.

(** [df.loc[when]]: the row labelled [when]; [KeyError] when there is none.
    With a repeated label pandas yields a dataframe, which has no [name]. *)
Definition loc (f : Frame) (when : Timestamp) : result (Timestamp * float) :=
  match filter (λ row, row.1 = when) f with
  | [] => Raise KeyError
  | [row] => Ok row
  | _ => Raise AttributeError
  end.

(** [Index.is_monotonic_increasing] and [is_monotonic_decreasing]. *)
Fixpoint increasing (l : list Z) : bool :=
  match l with
  | a :: (b :: _) as l' => (a <=? b)%Z && increasing l'
  | _ => true
  end.

Fixpoint decreasing (l : list Z) : bool :=
  match l with
  | a :: (b :: _) as l' => (b <=? a)%Z && decreasing l'
  | _ => true
  end.

(** Whether label [a] is a better match for [target] than label [b]:
    strictly closer, or as close and the larger label. *)
Definition closer (target a b : Z) : bool :=
  let da := Z.abs (a - target) in
  let db := Z.abs (b - target) in
  ((da <? db) || ((da =? db) && (b <? a)))%Z.

(** The position of the best match in [l], scanning from position [i] with
    the best candidate so far in [best]. *)
Fixpoint nearest_from (target : Z) (l : list Z) (i : nat)
    (best : option (nat * Z)) : option (nat * Z) :=
  match l with
  | [] => best
  | a :: l' =>
      let best' :=
        match best with
        | Some (_, b) => if closer target a b then Some (i, a) else best
        | None => Some (i, a)
        end in
      nearest_from target l' (S i) best'
  end.

(** [index.get_indexer([when], method="nearest")[0]]: pandas wants unique
    labels ([InvalidIndexError] otherwise) in monotonic order ([ValueError]
    otherwise), and answers -1 on an empty index. *)
Definition get_indexer_nearest (idx : list Timestamp) (when : Timestamp)
  : result Z :=
  if decide (NoDup idx) then
    if increasing idx || decreasing idx then
      match nearest_from when idx 0 None with
      | Some (i, _) => Ok (Z.of_nat i)
      | None => Ok (-1)%Z
      end
    else Raise ValueError
  else Raise OtherError.

(** A price history is a time series: no label of its index is repeated,
    and the labels are in monotonic order. *)
Definition time_series (f : Frame) : Prop :=
  NoDup (index f) ∧ increasing (index f) || decreasing (index f) = true.

Definition price_point (query : string) (when : Timestamp)
    (source currency_preference : string) (σ : State)
  : State * result PricePoint :=
  match price_history (positional query source currency_preference) σ with
  | (σ', Raise e) => (σ', Raise e)
  | (σ', Ok ph) =>
      (σ',
       df ← deref σ' (ph_df ph);
       i ← get_indexer_nearest (index df) when;
       price ← iloc df i;
       Ok {| pp_when := price.1; pp_price := price.2;
             pp_currency := ph_currency ph |})
  end.

Definition price_point_strict (query : string) (when : Timestamp)
    (source currency_preference : string) (σ : State)
  : State * result PricePoint :=
  match price_history (positional query source currency_preference) σ with
  | (σ', Raise e) => (σ', Raise e)
  | (σ', Ok ph) =>
      (σ',
       df ← deref σ' (ph_df ph);
       row ← loc df when;
       row' ← loc df when;
       Ok {| pp_when := row.1; pp_price := row'.2;
             pp_currency := ph_currency ph |})
  end.

Definition price_latest (query source currency_preference : string)
    (σ : State) : State * result PricePoint :=
  match price_history (positional query source currency_preference) σ with
  | (σ', Raise e) => (σ', Raise e)
  | (σ', Ok ph) =>
      (σ',
       df ← deref σ' (ph_df ph);
       row ← iloc df (-1);
       row' ← iloc df (-1);
       Ok {| pp_when := row.1; pp_price := row'.2;
             pp_currency := ph_currency ph |})
  end.

(** What a caller sees of a call's outcome: the dataframe's content and the
    currency, or the exception. *)
Definition observe (out : State * result PriceHistory)
  : result (result Frame * string) :=
  match out with
  | (σ, Ok ph) => Ok (deref σ (ph_df ph), ph_currency ph)
  | (_, Raise e) => Raise e
  end.

(** A client calls one of the module's functions ... *)
Inductive call : State → State → Prop :=
| call_price_history args σ :
    call σ (price_history args σ).1
| call_price_point q w s c σ :
    call σ (price_point q w s c σ).1
| call_price_point_strict q w s c σ :
    call σ (price_point_strict q w s c σ).1
| call_price_latest q s c σ :
    call σ (price_latest q s c σ).1.

(** ... or writes into a dataframe it was handed. *)
Inductive step : State → State → Prop :=
| step_call σ σ' : call σ σ' → step σ σ'
| step_mutate r f σ : r < length (heap σ) → step σ (mutate r f σ).

(** The states a program can be in. *)
Definition reachable (σ : State) : Prop := rtc step initial σ.

(** The states of a program that never writes into a dataframe. *)
Definition reachable_by_calls (σ : State) : Prop := rtc call initial σ.

(** What holds of every cache entry in a reachable state: the dataframe it
    refers to exists, and its currency has no lower-case letter. *)
Definition cache_ok (σ : State) : Prop :=
  ∀ key ph, cache σ !! key = Some ph →
    ph_df ph < length (heap σ) ∧ has_lower (ph_currency ph) = false.

(** What holds of every cache entry as long as no dataframe is written to
    and the sources answer the same whenever asked: the entry is what the
    body of [price_history] computes for the arguments it is filed under. *)
Definition cache_faithful (σ : State) : Prop :=
  ∀ args ph,
    cache σ !! args = Some ph →
    ∃ query source currency_preference src df effective_currency,
      bind_arguments args = Ok (query, source, currency_preference)
      ∧ get_source source = Ok src
      ∧ get_price_history_bruteforcefully src 0 query currency_preference
        = Ok (df, effective_currency)
      ∧ heap σ !! ph_df ph = Some df
      ∧ ph_currency ph = upper effective_currency.

End WithSources.

Arguments Build_State {float} heap cache queries.
Arguments heap {float} s.
Arguments cache {float} s.
Arguments queries {float} s.
Arguments initial {float}.
Arguments mutate {float} r f σ.
Arguments deref {float} σ r.
Arguments index {float} f.
Arguments iloc {float} f i.
Arguments loc {float} f when.
Arguments time_series {float} f.
Arguments Build_PricePoint {float} pp_when pp_price pp_currency.
Arguments pp_when {float} p.
Arguments pp_price {float} p.
Arguments pp_currency {float} p.
Arguments custom_cache_wrapper {float} func args σ.
Arguments price_history_body {float Source} get_source
  get_price_history_bruteforcefully key σ.
Arguments price_history_function {float Source} get_source
  get_price_history_bruteforcefully args σ.
Arguments price_history {float Source} get_source
  get_price_history_bruteforcefully args σ.
Arguments price_point {float Source} get_source
  get_price_history_bruteforcefully query when source currency_preference σ.
Arguments price_point_strict {float Source} get_source
  get_price_history_bruteforcefully query when source currency_preference σ.
Arguments price_latest {float Source} get_source
  get_price_history_bruteforcefully query source currency_preference σ.
Arguments observe {float} out.
Arguments call {float Source} get_source get_price_history_bruteforcefully σ σ'.
Arguments step {float Source} get_source get_price_history_bruteforcefully σ σ'.
Arguments reachable {float Source} get_source
  get_price_history_bruteforcefully σ.
Arguments reachable_by_calls {float Source} get_source
  get_price_history_bruteforcefully σ.
Arguments cache_ok {float} σ.
Arguments cache_faithful {float Source} get_source
  get_price_history_bruteforcefully σ.

(** *** A small source to run the functions on

    One source, "yahoo", which knows one ticker and reports its currency in
    lower case; prices are integers here. *)

Definition sample_get_source (source : string) : result unit :=
  if decide (source = "yahoo") then Ok tt else Raise ValueError.

Definition sample_frame : list (Timestamp * Z) :=
  [(20200102, 75); (20200103, 74); (20200106, 75)]%Z.

Definition sample_fetch (src : unit) (n : nat) (query currency : string)
  : result (list (Timestamp * Z) * string) :=
  if decide (query = "AAPL") then Ok (sample_frame, "usd")
  else Raise RuntimeError.

(** A source that answers every query with a history without rows. *)
Definition sample_fetch_empty (src : unit) (n : nat) (query currency : string)
  : result (list (Timestamp * Z) * string) :=
  Ok ([], "usd").

(** A source whose history does not come in the order of its labels. *)
Definition sample_frame_unsorted : list (Timestamp * Z) :=
  [(20200102, 75); (20200106, 75); (20200103, 74)]%Z.

Definition sample_fetch_unsorted (src : unit) (n : nat)
    (query currency : string) : result (list (Timestamp * Z) * string) :=
  Ok (sample_frame_unsorted, "usd").

(** A source whose history lists one day twice. *)
Definition sample_frame_repeated : list (Timestamp * Z) :=
  [(20200102, 75); (20200103, 74); (20200103, 74)]%Z.

Definition sample_fetch_repeated (src : unit) (n : nat)
    (query currency : string) : result (list (Timestamp * Z) * string) :=
  Ok (sample_frame_repeated, "usd").

(** A source whose answer changes from one query to the next: the price it
    reports is the number of queries it has seen. *)
Definition sample_fetch_live (src : unit) (n : nat) (query currency : string)
  : result (list (Timestamp * Z) * string) :=
  Ok ([(20200102%Z, Z.of_nat n)], "usd").

End Price.

(** ** [tessa/symbol/extended_symbol.py] *)

Module ExtendedSymbol.

(** [Union[str, List[str]]], the type of the [strategy] field. *)
Inductive Strategy : Type :=
| StrategyStr (s : string)
| StrategyList (l : list string).

(** The fields of an [ExtendedSymbol] that [get_strategy_string] reads. *)
Record ExtendedSymbol : Type := {
  strategy : Strategy;
  strategy_comments : option string;
}.

(** [sep.join(l)] *)
Fixpoint join (sep : string) (l : list string) : string :=
  match l with
  | [] => ""
  | s :: l' =>
      match l' with
      | [] => s
      | _ => s +:+ sep +:+ join sep l'
      end
  end.

(** The separator of the f-string of line 63, a middle dot between two
    spaces (strings are UTF-8 byte strings here). *)
Definition comment_separator : string := " · ".

(** [get_strategy_string]; a comment that is [None] or empty is falsy. *)
Definition get_strategy_string (self : ExtendedSymbol) : string :=
  let res :=
    match strategy self with
    | StrategyList l => join ", " l
    | StrategyStr s => s
    end in
  match strategy_comments self with
  | Some comments =>
      if decide (comments = "") then res
      else res +:+ comment_separator +:+ comments
  | None => res
  end.

End ExtendedSymbol.

(** ** [tessa/investing_search.py] *)

Module InvestingSearch.

(** A dataframe cell or an object attribute: a [str] or [None]. *)
Abbreviation cell := (option string) (only parsing).

(** A search result dataframe: its column labels and, for every row, the
    dict that [row.to_dict()] yields. *)
Record DataFrame : Type := {
  df_columns : gset string;
  df_rows : list (gmap string cell);
}.

(** An [investpy] search object. [so_id] is the object's identity: the
    class defines no [__eq__], so sets of search objects compare by
    identity. *)
Record SearchObj : Type := {
  so_id : positive;
  so_symbol : string;
  so_name : string;
  so_pair_type : string;
  so_country : cell;
}.

#[global] Instance SearchObj_eq_dec : EqDecision SearchObj.
Proof. solve_decision. Defined.

#[global] Instance SearchObj_countable : Countable SearchObj.
Proof.
  refine (inj_countable'
    (λ o, (so_id o, so_symbol o, so_name o, so_pair_type o, so_country o))
    (λ t, let '(i, s, n, p, c) := t in
          {| so_id := i; so_symbol := s; so_name := n;
             so_pair_type := p; so_country := c |}) _).
  by intros [].
Defined.

(** What [investpy.search_quotes] hands back: a list, or "sometimes just
    the SearchObj itself". *)
Inductive QuotesReply : Type :=
| ReplyList (objs : list SearchObj)
| ReplyObj (obj : SearchObj).

(** [Optional[Union[list, str]]], the type of [countries] and [products]. *)
Inductive StrOrList : Type :=
| ArgNone
| ArgStr (s : string)
| ArgList (l : list string).

(** The provider endpoints a search can hit. *)
Inductive ProviderCall : Type :=
| CallSearch (product by_ value : string)
| CallSearchQuotes (text : string) (products countries : option (list string)).

(** *** A small provider to run the functions on

    The product names are those of the mapping table at the end of
    [investing_search.py]; the provider knows one commodity and two quotes
    and, like [investpy], raises [RuntimeError] when it finds nothing. *)

Definition sample_plurals : list string :=
  ["stocks"; "etfs"; "funds"; "indices"; "certificates"; "currency_crosses";
   "bonds"; "commodities"].

Definition sample_singular (name : string) : string :=
  if decide (name = "stocks") then "stock"
  else if decide (name = "etfs") then "etf"
  else if decide (name = "funds") then "fund"
  else if decide (name = "indices") then "index"
  else if decide (name = "certificates") then "certificate"
  else if decide (name = "currency_crosses") then "currency_cross"
  else if decide (name = "bonds") then "bond"
  else if decide (name = "commodities") then "commodity"
  else name.

Definition sample_is_valid (name : string) : bool :=
  bool_decide (name ∈ sample_plurals
               ∨ name ∈ sample_singular <$> sample_plurals).

Definition gold_row : gmap string cell :=
  <["name" := Some "Gold"]>
  (<["full_name" := Some "Gold Futures"]>
  (<["country" := None]> ∅)).

Definition gold_frame : DataFrame :=
  {| df_columns := {["name"; "full_name"; "country"]}; df_rows := [gold_row] |}.

Definition sample_search (product by_ value : string) : result DataFrame :=
  if decide (product = "commodities" ∧ by_ = "name" ∧ value = "gold")
  then Ok gold_frame
  else Raise RuntimeError.

Definition apple : SearchObj :=
  {| so_id := 1; so_symbol := "AAPL"; so_name := "Apple Inc";
     so_pair_type := "stocks"; so_country := Some "united states" |}.

Definition apple_hospitality : SearchObj :=
  {| so_id := 2; so_symbol := "APLE"; so_name := "Apple Hospitality REIT";
     so_pair_type := "stocks"; so_country := Some "united states" |}.

Definition sample_search_quotes (text : string)
    (products countries : option (list string)) : result QuotesReply :=
  if decide (text = "aapl")
  then Ok (ReplyList [apple; apple_hospitality])
  else Raise RuntimeError.

(** The sample keeps a search object's dict literal as the object. *)
Definition sample_literal (obj : SearchObj) : result SearchObj := Ok obj.

(** A second provider, which knows one stock. *)
Definition apple_row : gmap string cell :=
  <["symbol" := Some "AAPL"]>
  (<["name" := Some "Apple"]>
  (<["full_name" := Some "Apple Inc"]>
  (<["isin" := Some "US0378331005"]>
  (<["country" := Some "united states"]> ∅)))).

Definition apple_frame : DataFrame :=
  {| df_columns := {["symbol"; "name"; "full_name"; "isin"; "country"]};
     df_rows := [apple_row] |}.

Definition stock_search (product by_ value : string) : result DataFrame :=
  if decide (product = "stocks" ∧ by_ = "symbol" ∧ value = "aapl")
  then Ok apple_frame
  else Raise RuntimeError.

Section WithProvider.

(** [investing_types] (the table of singular and plural product names)
    is imported, not defined, by the module. *)
Variable get_plurals : list string.
Variable ensure_singular : string → string.
Variable is_valid : string → bool.

(** The provider: [getattr(investpy, "search_" + product)(by=, value=)]
    and [investpy.search_quotes(text=, products=, countries=)]. *)
Variable investpy_search : string → string → string → result DataFrame.
Variable investpy_search_quotes :
  string → option (list string) → option (list string) → result QuotesReply.

(** [ast.literal_eval(str(obj).replace("null", "None"))]: the dict used
    to re-issue the lookup; [literal_eval] may raise. *)
Variable Payload : Type.
Variable searchobj_literal : SearchObj → result Payload.

(** The [query] keyword handed to [Symbol]: a dataframe cell or the
    search object's dict. *)
Inductive QueryArg : Type :=
| QueryCell (c : cell)
| QueryDict (d : Payload).

(** A [Symbol], as the keyword arguments its constructor is called
    with; a keyword that is not passed is [None] here. [aliases] and
    [type_] are passed by both normalisers. *)
Record Symbol : Type := {
  sym_name : cell;
  sym_type_ : string;
  sym_country : option cell;
  sym_query : option QueryArg;
  sym_aliases : list cell;
}.

(** [d[key]] *)
Definition getitem (d : gmap string cell) (key : string) : result cell :=
  match d !! key with
  | Some v => Ok v
  | None => Raise KeyError
  end.

(** [d.get(key, None)] *)
Definition get (d : gmap string cell) (key : string) : cell :=
  default None (d !! key).

(** The set expression of lines 69-72. In Python [-] binds tighter than
    [|], so the expression parses as
    [{name, full_name} | (({isin} - {args["name"]}) - {None, ""})]. *)
Definition alias_set (d : gmap string cell) (chosen : cell) : gset cell :=
  {[ get d "name"; get d "full_name" ]}
  ∪ (({[ get d "isin" ]} ∖ {[ chosen ]}) ∖ {[ None; Some "" ]}).

Definition row_to_symbol (product : string) (d : gmap string cell)
  : result Symbol :=
  let type_ := ensure_singular product in
  country ←
    (if decide (type_ ≠ "currency_cross")
     then v ← getitem d "country"; Ok (Some v)
     else Ok None);
  name ←
    (if decide (type_ ∈ ["currency_cross"; "bond"; "commodity"])
     then getitem d "name"
     else getitem d "symbol");
  query ←
    (if decide (type_ ∈ ["etf"; "fund"; "certificate"; "index"])
     then v ← getitem d "name"; Ok (Some (QueryCell v))
     else Ok None);
  Ok {| sym_name := name;
        sym_type_ := type_;
        sym_country := country;
        sym_query := query;
        sym_aliases := [] ++ elements (alias_set d name) |}.

Definition _dataframe_to_symbols (df : DataFrame) (product : string)
  : result (list Symbol) :=
  mapR (row_to_symbol product) (df_rows df).

(** [[x] if isinstance(x, str) else x] *)
Definition as_list (a : StrOrList) : option (list string) :=
  match a with
  | ArgNone => None
  | ArgStr s => Some [s]
  | ArgList l => Some l
  end.

Definition valid_bys : list string := ["full_name"; "name"; "symbol"].

(** [set(products) & set(valid_products)] *)
Definition only_valid (products : list string) : gset string :=
  list_to_set products ∩ list_to_set get_plurals.

(** The products the loop of [search_name_or_symbol] runs over. *)
Definition products_to_search (products : StrOrList) : list string :=
  match as_list products with
  | Some l => elements (only_valid l)
  | None => get_plurals
  end.

Definition row_country_in (countries : list string) (row : gmap string cell)
  : Prop :=
  match row !! "country" with
  | Some (Some c) => c ∈ countries
  | _ => False
  end.

#[local] Instance row_country_in_dec countries row :
  Decision (row_country_in countries row).
Proof. unfold row_country_in. destruct (row !! "country") as [[c|]|]; apply _. Defined.

(** [df[df.country.isin(countries)]]; [df.country] needs the column. *)
Definition country_isin (df : DataFrame) (countries : list string)
  : result DataFrame :=
  if decide ("country" ∈ df_columns df) then
    Ok {| df_columns := df_columns df;
          df_rows := filter (row_country_in countries) (df_rows df) |}
  else Raise AttributeError.

Definition filter_countries (countries : option (list string)) (df : DataFrame)
  : result DataFrame :=
  match countries with
  | Some cs => country_isin df cs
  | None => Ok df
  end.

(** [f"investing_{product}_by_{by}"] *)
Definition result_key (product by_ : string) : string :=
  "investing_" +:+ product +:+ "_by_" +:+ by_.

(** The body of the inner loop, lines 125-132. *)
Definition search_by (query : string) (countries : option (list string))
    (product : string) (res : gmap string (list Symbol)) (by_ : string)
  : traced ProviderCall (gmap string (list Symbol)) :=
  _ ← tell (CallSearch product by_ query);
  match investpy_search product by_ query with
  | Raise RuntimeError | Raise ValueError => mret res
  | Raise e => lift (Raise e)
  | Ok df =>
      df ← lift (filter_countries countries df);
      if decide (0 < length (df_rows df)) then
        symbols ← lift (_dataframe_to_symbols df product);
        mret (<[result_key product by_ := symbols]> res)
      else mret res
  end.

(** One evaluation of [search_name_or_symbol] (the [lru_cache] around it
    replays earlier results; [rate_limit] only waits). *)
Definition search_name_or_symbol (query : string) (countries products : StrOrList)
  : traced ProviderCall (gmap string (list Symbol)) :=
  let query := lower query in
  let countries := as_list countries in
  let products := products_to_search products in
  for_each products
    (λ res product, for_each valid_bys (search_by query countries product) res)
    ∅.

Definition searchobj_to_symbol (obj : SearchObj) : result Symbol :=
  let type_ :=
    if is_valid (so_pair_type obj)
    then ensure_singular (so_pair_type obj)
    else so_pair_type obj in
  query ← searchobj_literal obj;
  Ok {| sym_name := Some (so_symbol obj);
        sym_type_ := type_;
        sym_query := Some (QueryDict query);
        sym_aliases := [Some (so_name obj)];
        sym_country := Some (so_country obj) |}.

Definition _searchobj_to_symbols (objs : list SearchObj) : result (list Symbol) :=
  mapR searchobj_to_symbol objs.

(** The [products] argument handed to [search_quotes], lines 195-199. *)
Definition products_for_quotes (products : StrOrList) : option (list string) :=
  match as_list products with
  | Some l =>
      match elements (only_valid l) with
      | [] => None
      | l' => Some l'
      end
  | None => None
  end.

Definition is_perfect (query : string) (x : SearchObj) : bool :=
  bool_decide (lower (so_symbol x) = query)
  || bool_decide (lower (so_name x) = query).

Definition perfect_matches (query : string) (search_res : list SearchObj)
  : list SearchObj :=
  List.filter (is_perfect query) search_res.

Definition other_matches (search_res perfect : list SearchObj) : gset SearchObj :=
  list_to_set search_res ∖ list_to_set perfect.

(** The dict comprehension of lines 221-228. *)
Definition triage (perfect : list SearchObj) (other : gset SearchObj)
  : result (gmap string (list Symbol)) :=
  res ←
    (if decide (perfect ≠ [])
     then symbols ← _searchobj_to_symbols perfect;
          Ok (<["investing_searchobj_perfect" := symbols]> ∅)
     else Ok ∅);
  if decide (other ≠ ∅)
  then symbols ← _searchobj_to_symbols (elements other);
       Ok (<["investing_searchobj_other" := symbols]> res)
  else Ok res.

Definition reply_list (reply : QuotesReply) : list SearchObj :=
  match reply with
  | ReplyList objs => objs
  | ReplyObj obj => [obj]
  end.

(** One evaluation of [search_for_searchobjs]. *)
Definition search_for_searchobjs (query : string) (countries products : StrOrList)
  : traced ProviderCall (gmap string (list Symbol)) :=
  let query := lower query in
  let countries := as_list countries in
  let products := products_for_quotes products in
  _ ← tell (CallSearchQuotes query products countries);
  match investpy_search_quotes query products countries with
  | Raise ValueError | Raise RuntimeError => mret ∅
  | Raise e => lift (Raise e)
  | Ok reply =>
      let search_res := reply_list reply in
      let perfect := perfect_matches query search_res in
      let other := other_matches search_res perfect in
      lift (triage perfect other)
  end.

(** [investing_search]: both searches, merged with [{**a, **b}]. *)
Definition investing_search (query : string) (countries products : StrOrList)
  : traced ProviderCall (gmap string (list Symbol)) :=
  by_name ← search_name_or_symbol query countries products;
  by_quote ← search_for_searchobjs query countries products;
  mret (by_quote ∪ by_name).

(** *** Specification vocabulary *)

(** The dataframe a product/by combination contributes: the provider's
    answer after the country filter, when it has at least one row. *)
Definition found (query : string) (countries : option (list string))
    (product by_ : string) : option DataFrame :=
  match investpy_search product by_ query with
  | Ok df =>
      match filter_countries countries df with
      | Ok df' => if decide (0 < length (df_rows df')) then Some df' else None
      | Raise _ => None
      end
  | Raise _ => None
  end.

(** A combination lets the loop go on: the provider answers or raises one
    of the two exceptions that are caught, the country column is there when
    it is filtered on, and the rows convert. *)
Definition combination_passes (query : string) (countries : option (list string))
    (product by_ : string) : Prop :=
  match investpy_search product by_ query with
  | Ok df =>
      match filter_countries countries df with
      | Ok df' =>
          0 < length (df_rows df') →
          ∃ symbols, _dataframe_to_symbols df' product = Ok symbols
      | Raise _ => False
      end
  | Raise e => e = RuntimeError ∨ e = ValueError
  end.

(** The columns [row_to_symbol] reads with [d[...]] for a singular type. *)
Definition columns_read (type_ : string) : list string :=
  (if decide (type_ ≠ "currency_cross") then ["country"] else [])
  ++ (if decide (type_ ∈ ["currency_cross"; "bond"; "commodity"])
      then ["name"] else ["symbol"])
  ++ (if decide (type_ ∈ ["etf"; "fund"; "certificate"; "index"])
      then ["name"] else []).

(** The cross product the dispatcher walks, in loop order. *)
Definition cross_product (products : list string) : list (string * string) :=
  product ← products; by_ ← valid_bys; [(product, by_)].

(** The symbols a combination puts into the result dict, if any. *)
Definition contribution (query : string) (countries : option (list string))
    (product by_ : string) : option (list Symbol) :=
  match found query countries product by_ with
  | Some df =>
      match _dataframe_to_symbols df product with
      | Ok symbols => Some symbols
      | Raise _ => None
      end
  | None => None
  end.

(** The assignment [res[key] = symbols] of a combination that found rows. *)
Definition add_result (query : string) (countries : option (list string))
    (product : string) (res : gmap string (list Symbol)) (by_ : string)
  : gmap string (list Symbol) :=
  match contribution query countries product by_ with
  | Some symbols => <[result_key product by_ := symbols]> res
  | None => res
  end.

(** The dict after the combinations [combos], starting from [res]. *)
Definition collect (query : string) (countries : option (list string))
    (combos : list (string * string)) (res : gmap string (list Symbol))
  : gmap string (list Symbol) :=
  foldl (λ r c, add_result query countries c.1 r c.2) res combos.

(** An exact match, in the words of the search: the result's symbol or its
    name is the query, letter case aside. *)
Definition exact_match (query : string) (x : SearchObj) : Prop :=
  lower (so_symbol x) = lower query ∨ lower (so_name x) = lower query.

#[local] Instance exact_match_dec query x : Decision (exact_match query x).
Proof. unfold exact_match. apply _. Defined.

(** The results a reply of [search_quotes] holds: those of the list, or the
    one object that came without a list. *)
Definition results_of (reply : QuotesReply) : list SearchObj :=
  match reply with
  | ReplyList objs => objs
  | ReplyObj obj => [obj]
  end.

(** A symbol stands for a search result: it has the result's symbol as its
    name, the result's name as its alias, and the result's country. *)
Definition stands_for (s : Symbol) (x : SearchObj) : Prop :=
  sym_name s = Some (so_symbol x)
  ∧ sym_aliases s = [Some (so_name x)]
  ∧ sym_country s = Some (so_country x).

(** A row is of one of the countries asked for. *)
Definition country_among (countries : list string) (row : gmap string cell)
  : Prop :=
  ∃ c, row !! "country" = Some (Some c) ∧ c ∈ countries.

#[local] Instance country_among_dec countries row :
  Decision (country_among countries row).
Proof.
  unfold country_among.
  destruct (row !! "country") as [[c|]|].
  - destruct (decide (c ∈ countries)) as [Hc|Hc].
    + left. by exists c.
    + right. intros (c' & [= <-] & Hc'). by apply Hc.
  - right. by intros (c' & [=] & _).
  - right. by intros (c' & [=] & _).
Defined.


(** *** Triage of search objects *)

Lemma perfect_matches_spec query search_res x :
  x ∈ perfect_matches query search_res ↔
  x ∈ search_res ∧
  (lower (so_symbol x) = query ∨ lower (so_name x) = query).
Proof.
  unfold perfect_matches, is_perfect.
  rewrite !list_elem_of_In, filter_In, orb_true_iff, !bool_decide_eq_true.
  reflexivity.
Qed.

Lemma other_matches_spec query search_res x :
  x ∈ other_matches search_res (perfect_matches query search_res) ↔
  x ∈ search_res ∧
  ¬ (lower (so_symbol x) = query ∨ lower (so_name x) = query).
Proof.
  unfold other_matches.
  rewrite elem_of_difference, !elem_of_list_to_set, perfect_matches_spec.
  naive_solver.
Qed.

Lemma triage_lookup perfect other d :
  triage perfect other = Ok d →
  (∀ symbols,
     d !! "investing_searchobj_perfect" = Some symbols ↔
     perfect ≠ [] ∧ _searchobj_to_symbols perfect = Ok symbols)
  ∧ (∀ symbols,
     d !! "investing_searchobj_other" = Some symbols ↔
     other ≠ ∅ ∧ _searchobj_to_symbols (elements other) = Ok symbols)
  ∧ (∀ k, k ∈ dom d →
     k = "investing_searchobj_perfect" ∨ k = "investing_searchobj_other").
Proof.
  unfold triage. intros H.
  assert (Hne : "investing_searchobj_other" ≠ "investing_searchobj_perfect")
    by done.
  destruct (decide (perfect ≠ [])) as [Hp|Hp]; simpl in H.
  - destruct (_searchobj_to_symbols perfect) as [sp|] eqn:Ep; [|done].
    simpl in H. destruct (decide (other ≠ ∅)) as [Ho|Ho]; simpl in H.
    + destruct (_searchobj_to_symbols (elements other)) as [so|] eqn:Eo; [|done].
      injection H as <-. split_and!.
      * intros symbols. rewrite lookup_insert_ne, lookup_insert_eq by done.
        naive_solver.
      * intros symbols. rewrite lookup_insert_eq. naive_solver.
      * intros k. rewrite !dom_insert. set_solver.
    + injection H as <-. split_and!.
      * intros symbols. rewrite lookup_insert_eq. naive_solver.
      * intros symbols. rewrite lookup_insert_ne, lookup_empty by done.
        naive_solver.
      * intros k. rewrite !dom_insert. set_solver.
  - destruct (decide (other ≠ ∅)) as [Ho|Ho]; simpl in H.
    + destruct (_searchobj_to_symbols (elements other)) as [so|] eqn:Eo; [|done].
      injection H as <-. split_and!.
      * intros symbols. rewrite lookup_insert_ne, lookup_empty by done.
        naive_solver.
      * intros symbols. rewrite lookup_insert_eq. naive_solver.
      * intros k. rewrite !dom_insert. set_solver.
    + injection H as <-. split_and!.
      * intros symbols. rewrite lookup_empty. naive_solver.
      * intros symbols. rewrite lookup_empty. naive_solver.
      * intros k. set_solver.
Qed.

Lemma mapR_total {A B} (f : A → result B) (l : list A) :
  Forall (λ x, ∃ y, f x = Ok y) l → ∃ ys, mapR f l = Ok ys.
Proof.
  induction 1 as [|x l [y Hy] _ [ys Hys]]; simpl; [by eexists|].
  rewrite Hy. simpl. rewrite Hys. simpl. by eexists.
Qed.

Lemma mapR_Forall2 {A B} (f : A → result B) (l : list A) (ys : list B) :
  mapR f l = Ok ys → Forall2 (λ x y, f x = Ok y) l ys.
Proof.
  revert ys. induction l as [|x l IH]; simpl; intros ys H.
  - injection H as <-. constructor.
  - destruct (f x) as [y|] eqn:Hy; [|done]. simpl in H.
    destruct (mapR f l) as [ys'|]; [|done]. simpl in H.
    injection H as <-. constructor; auto.
Qed.

(** The comprehension of lines 216-218 keeps the exact matches, in the order
    of the results. *)
Lemma perfect_matches_filter query search_res :
  perfect_matches (lower query) search_res
  = filter (exact_match query) search_res.
Proof.
  unfold perfect_matches, is_perfect.
  induction search_res as [|x l IH]; [done|].
  rewrite filter_cons, <-IH. simpl. unfold exact_match.
  destruct (decide _) as [Hx|Hx]; repeat case_bool_decide; simpl;
    naive_solver.
Qed.

(** What the dict comprehension of lines 221-228 leaves under each of its
    two keys. *)
Lemma triage_categories perfect other d :
  triage perfect other = Ok d →
  match d !! "investing_searchobj_perfect" with
  | Some symbols => perfect ≠ [] ∧ _searchobj_to_symbols perfect = Ok symbols
  | None => perfect = []
  end
  ∧ match d !! "investing_searchobj_other" with
    | Some symbols =>
        other ≠ ∅ ∧ _searchobj_to_symbols (elements other) = Ok symbols
    | None => other = ∅
    end.
Proof.
  unfold triage. intros H.
  assert (Hne : "investing_searchobj_other" ≠ "investing_searchobj_perfect")
    by done.
  destruct (decide (perfect ≠ [])) as [Hp|Hp]; simpl in H.
  - destruct (_searchobj_to_symbols perfect) as [sp|] eqn:Ep; [|done].
    simpl in H. destruct (decide (other ≠ ∅)) as [Ho|Ho]; simpl in H.
    + destruct (_searchobj_to_symbols (elements other)) as [so|] eqn:Eo; [|done].
      injection H as <-.
      by rewrite lookup_insert_ne, !lookup_insert_eq by done.
    + injection H as <-.
      rewrite lookup_insert_eq, lookup_insert_ne, lookup_empty by done.
      split; [done|]. by apply dec_stable.
  - assert (perfect = []) as -> by by apply dec_stable.
    destruct (decide (other ≠ ∅)) as [Ho|Ho]; simpl in H.
    + destruct (_searchobj_to_symbols (elements other)) as [so|] eqn:Eo; [|done].
      injection H as <-.
      by rewrite lookup_insert_ne, lookup_empty, lookup_insert_eq by done.
    + injection H as <-. rewrite !lookup_empty.
      split; [done|]. by apply dec_stable.
Qed.

Lemma searchobj_to_symbols_stand_for objs symbols :
  _searchobj_to_symbols objs = Ok symbols →
  Forall2 stands_for symbols objs.
Proof.
  intros H%mapR_Forall2. apply Forall2_flip.
  eapply Forall2_impl; [exact H|]. intros obj s. unfold searchobj_to_symbol.
  destruct (searchobj_literal obj) as [payload|]; [|done]. simpl.
  by intros [= <-].
Qed.

(** C1. For every query and every reply of [investpy.search_quotes], the
    dict that [search_for_searchobjs] returns sorts the results of the reply
    (the objects of the list, or the one object that came without a list)
    into two categories. The perfect matches are the results whose
    lower-cased symbol or lower-cased name is the lower-cased query, in the
    order of the reply; the other matches are all the remaining results, each
    once; so every result is in exactly one of the two. The key
    "investing_searchobj_perfect" is in the dict exactly when there is a
    perfect match, and then holds one symbol for each perfect match, and
    likewise the key "investing_searchobj_other" for the other matches; the
    dict has no further key. The call returns whenever every result's dict
    literal parses. *)
Theorem search_for_searchobjs_triage query countries products reply :
  investpy_search_quotes
    (lower query) (products_for_quotes products) (as_list countries)
    = Ok reply →
  (∀ t d, search_for_searchobjs query countries products = (t, Ok d) →
     ∃ perfect other,
       perfect = filter (exact_match query) (results_of reply)
       ∧ (∀ x, x ∈ perfect ↔ (x ∈ results_of reply ∧ exact_match query x))
       ∧ NoDup other
       ∧ (∀ x, x ∈ other ↔ (x ∈ results_of reply ∧ ¬ exact_match query x))
       ∧ (∀ x, x ∈ results_of reply →
            (x ∈ perfect ∧ ¬ x ∈ other) ∨ (¬ x ∈ perfect ∧ x ∈ other))
       ∧ match d !! "investing_searchobj_perfect" with
         | Some symbols => perfect ≠ [] ∧ Forall2 stands_for symbols perfect
         | None => perfect = []
         end
       ∧ match d !! "investing_searchobj_other" with
         | Some symbols => other ≠ [] ∧ Forall2 stands_for symbols other
         | None => other = []
         end
       ∧ ∀ k, k ∈ dom d →
           k = "investing_searchobj_perfect" ∨ k = "investing_searchobj_other")
  ∧ (Forall (λ x, ∃ payload, searchobj_literal x = Ok payload)
       (results_of reply) →
     ∃ d, (search_for_searchobjs query countries products).2 = Ok d).
Proof.
  intros Hreply.
  set (search_res := reply_list reply).
  set (perfect := perfect_matches (lower query) search_res).
  set (other := other_matches search_res perfect).
  assert (Hres : search_res = results_of reply) by by destruct reply.
  assert (Hrun : search_for_searchobjs query countries products
                 = ([CallSearchQuotes (lower query) (products_for_quotes products)
                       (as_list countries)],
                    triage perfect other)).
  { unfold search_for_searchobjs. rewrite Hreply. simpl.
    unfold lift. fold search_res. fold perfect. fold other.
    by destruct (triage perfect other). }
  assert (Hperfect : ∀ x, x ∈ perfect
                          ↔ (x ∈ results_of reply ∧ exact_match query x)).
  { intros x. unfold perfect. by rewrite perfect_matches_spec, Hres. }
  assert (Hother : ∀ x, x ∈ elements other
                        ↔ (x ∈ results_of reply ∧ ¬ exact_match query x)).
  { intros x. rewrite elem_of_elements. unfold other, perfect.
    by rewrite other_matches_spec, Hres. }
  split.
  - intros t d Hd. rewrite Hrun in Hd. injection Hd as _ Hd.
    exists perfect, (elements other). split_and!.
    + unfold perfect. by rewrite perfect_matches_filter, Hres.
    + done.
    + apply NoDup_elements.
    + done.
    + intros x Hx. rewrite Hperfect, Hother.
      destruct (decide (exact_match query x)); naive_solver.
    + apply triage_categories in Hd as [Hp _].
      destruct (d !! "investing_searchobj_perfect") as [symbols|]; [|done].
      destruct Hp as [Hne Hsym]. split; [done|].
      by apply searchobj_to_symbols_stand_for.
    + apply triage_categories in Hd as [_ Ho].
      destruct (d !! "investing_searchobj_other") as [symbols|].
      * destruct Ho as [Hne Hsym]. split.
        -- intros Hnil. apply Hne. apply leibniz_equiv.
           by apply elements_empty_inv.
        -- by apply searchobj_to_symbols_stand_for.
      * rewrite Ho. apply elements_empty.
    + by apply triage_lookup in Hd as (_ & _ & Hdom).
  - intros Hall. rewrite Hrun. simpl. unfold triage.
    assert (Hconv : ∀ l, l ⊆ results_of reply →
                         ∃ ys, _searchobj_to_symbols l = Ok ys).
    { intros l Hl. apply mapR_total. apply Forall_forall. intros x Hx.
      rewrite Forall_forall in Hall.
      destruct (Hall x (Hl x Hx)) as [payload Hpay].
      unfold searchobj_to_symbol. rewrite Hpay. simpl. by eexists. }
    destruct (Hconv perfect) as [sp Hsp].
    { intros x. rewrite Hperfect. naive_solver. }
    destruct (Hconv (elements other)) as [so Hso].
    { intros x. rewrite Hother. naive_solver. }
    rewrite Hsp, Hso.
    destruct (decide (perfect ≠ [])); destruct (decide (other ≠ ∅));
      simpl; by eexists.
Qed.

(** *** Normalising dataframe rows *)

Lemma getitem_Ok d key v : getitem d key = Ok v ↔ d !! key = Some v.
Proof. unfold getitem. destruct (d !! key); naive_solver. Qed.

Ltac step_getitem H :=
  match type of H with
  | context [getitem ?d ?k] =>
      let v := fresh "v" in
      let Hv := fresh "Hv" in
      destruct (getitem d k) as [v|] eqn:Hv;
      [apply getitem_Ok in Hv|]; simpl in H; try discriminate H
  end.

(** What one row's dict contributes to its [Symbol], column by column. *)
Lemma row_to_symbol_mapping product d s :
  row_to_symbol product d = Ok s →
  let type_ := ensure_singular product in
  sym_type_ s = type_
  ∧ d !! (if decide (type_ ∈ ["currency_cross"; "bond"; "commodity"])
          then "name" else "symbol") = Some (sym_name s)
  ∧ sym_query s =
      (if decide (type_ ∈ ["etf"; "fund"; "certificate"; "index"])
       then QueryCell <$> d !! "name" else None)
  ∧ sym_country s =
      (if decide (type_ = "currency_cross") then None else d !! "country")
  ∧ sym_aliases s = elements (alias_set d (sym_name s)).
Proof.
  intros H type_. unfold row_to_symbol in H. fold type_ in H.
  repeat case_decide; simpl in H; repeat step_getitem H;
    injection H as <-; simpl; split_and!; try done; try congruence.
  all: by match goal with Hn : _ !! "name" = Some _ |- _ => rewrite Hn end.
Qed.

Lemma row_to_symbol_total product d :
  (∀ c, c ∈ columns_read (ensure_singular product) → is_Some (d !! c)) →
  ∃ s, row_to_symbol product d = Ok s.
Proof.
  unfold row_to_symbol, columns_read. intros Hcols.
  assert (Hget : ∀ c, c ∈ columns_read (ensure_singular product) →
                      ∃ v, getitem d c = Ok v).
  { intros c Hc. destruct (Hcols c Hc) as [v Hv]. exists v.
    by apply getitem_Ok. }
  unfold columns_read in Hget.
  destruct (decide (ensure_singular product ≠ "currency_cross"));
    destruct (decide (ensure_singular product
                      ∈ ["currency_cross"; "bond"; "commodity"]));
    destruct (decide (ensure_singular product
                      ∈ ["etf"; "fund"; "certificate"; "index"]));
    simpl in *;
    repeat match goal with
    | |- context [getitem d ?k] =>
        let v := fresh "v" in let Hv := fresh "Hv" in
        destruct (Hget k) as [v Hv]; [set_solver|]; rewrite Hv; simpl
    end;
    by eexists.
Qed.

(** C3. For every dataframe and product type, [_dataframe_to_symbols]
    builds one [Symbol] per row, with the singular product as its type: its
    name comes from the "name" column for currency_cross, bond and commodity
    and from the "symbol" column for every other type; [query] is passed, and
    is the "name" column, exactly for etf, fund, certificate and index;
    [country] is the "country" column for every type but currency_cross,
    for which no country is passed. The conversion succeeds whenever each
    row has the columns that are read for its type. *)
Theorem dataframe_to_symbols_column_mapping (df : DataFrame) (product : string) :
  let type_ := ensure_singular product in
  (∀ symbols, _dataframe_to_symbols df product = Ok symbols →
     Forall2
       (λ d s,
          sym_type_ s = type_
          ∧ d !! (if decide (type_ ∈ ["currency_cross"; "bond"; "commodity"])
                  then "name" else "symbol") = Some (sym_name s)
          ∧ sym_query s =
              (if decide (type_ ∈ ["etf"; "fund"; "certificate"; "index"])
               then QueryCell <$> d !! "name" else None)
          ∧ sym_country s =
              (if decide (type_ = "currency_cross")
               then None else d !! "country"))
       (df_rows df) symbols)
  ∧ (Forall (λ d, ∀ c, c ∈ columns_read type_ → is_Some (d !! c)) (df_rows df) →
     ∃ symbols, _dataframe_to_symbols df product = Ok symbols).
Proof.
  intros type_. unfold _dataframe_to_symbols. split.
  - intros symbols H. apply mapR_Forall2 in H.
    eapply Forall2_impl; [exact H|]. intros d s Hs.
    apply row_to_symbol_mapping in Hs. naive_solver.
  - intros Hcols. apply mapR_total.
    eapply Forall_impl; [exact Hcols|]. intros d Hd.
    by apply row_to_symbol_total.
Qed.

(** *** Aliases *)

Lemma get_lookup (d : gmap string cell) key v :
  d !! key = Some v → get d key = v.
Proof. unfold get. by intros ->. Qed.

(** The part of the invariant the set does give: no alias is repeated. *)
Lemma dataframe_aliases_NoDup product d s :
  row_to_symbol product d = Ok s → NoDup (sym_aliases s).
Proof.
  intros H. apply row_to_symbol_mapping in H as (_ & _ & _ & _ & ->).
  apply NoDup_elements.
Qed.

(** A column that is missing from the row puts [None] among the aliases. *)
Lemma dataframe_aliases_keep_None product d s :
  row_to_symbol product d = Ok s →
  d !! "full_name" = None →
  None ∈ sym_aliases s.
Proof.
  intros H Hfull. apply row_to_symbol_mapping in H as (_ & _ & _ & _ & ->).
  apply elem_of_elements. unfold alias_set, get. rewrite Hfull. set_solver.
Qed.

(** A search object whose name is its symbol is its own alias. *)
Lemma searchobj_alias_is_name obj s :
  searchobj_to_symbol obj = Ok s →
  so_name obj = so_symbol obj →
  sym_name s ∈ sym_aliases s.
Proof.
  unfold searchobj_to_symbol. intros H Heq.
  destruct (searchobj_literal obj); [|done]. injection H as <-. simpl.
  rewrite Heq. set_solver.
Qed.

(** C4 (the code departs from the claim). The two set differences of lines
    71-72 apply to [{isin}] only, so for the types that take their name from
    the "name" column (currency_cross, bond, commodity) the chosen name is
    always one of the aliases of the [Symbol] that is built. *)
Theorem dataframe_aliases_keep_chosen_name product d s :
  ensure_singular product ∈ ["currency_cross"; "bond"; "commodity"] →
  row_to_symbol product d = Ok s →
  sym_name s ∈ sym_aliases s.
Proof.
  intros Htype H.
  apply row_to_symbol_mapping in H as (_ & Hname & _ & _ & ->).
  rewrite decide_True in Hname by done.
  apply elem_of_elements. unfold alias_set.
  rewrite (get_lookup _ _ _ Hname). set_solver.
Qed.

(** *** Products that are not valid *)

Lemma only_valid_empty (l : list string) :
  (∀ p, p ∈ l → p ∉ get_plurals) → only_valid l = ∅.
Proof. unfold only_valid. intros H. set_solver. Qed.

(** C8. For a [products] list that is non-empty and holds no valid product,
    [search_name_or_symbol] is left with the empty set: it queries no
    endpoint and returns the empty dict. [search_for_searchobjs] replaces the
    empty list by [None]: it makes the very call to [search_quotes] that
    [products=None] makes, the one that searches all products, and returns
    what that call returns. *)
Theorem invalid_products_diverge query countries (l : list string) :
  l ≠ [] →
  (∀ p, p ∈ l → p ∉ get_plurals) →
  search_name_or_symbol query countries (ArgList l) = ([], Ok ∅)
  ∧ products_for_quotes (ArgList l) = None
  ∧ (search_for_searchobjs query countries (ArgList l)).1
    = [CallSearchQuotes (lower query) None (as_list countries)]
  ∧ search_for_searchobjs query countries (ArgList l)
    = search_for_searchobjs query countries ArgNone.
Proof.
  intros _ Hinvalid.
  assert (Hq : products_for_quotes (ArgList l) = None).
  { unfold products_for_quotes. simpl.
    by rewrite (only_valid_empty l Hinvalid), elements_empty. }
  split_and!; [|done| |].
  - unfold search_name_or_symbol, products_to_search. simpl.
    by rewrite (only_valid_empty l Hinvalid), elements_empty.
  - unfold search_for_searchobjs. rewrite Hq. simpl.
    by destruct (investpy_search_quotes _ _ _) as [reply|[]].
  - unfold search_for_searchobjs. by rewrite Hq.
Qed.

(** *** Strings *)

Lemma append_assoc (s1 s2 s3 : string) :
  (s1 +:+ s2) +:+ s3 = s1 +:+ (s2 +:+ s3).
Proof.
  induction s1 as [|a s1 IH]; [done|].
  change (String a ((s1 +:+ s2) +:+ s3) = String a (s1 +:+ (s2 +:+ s3))).
  by rewrite IH.
Qed.

Lemma length_append (s1 s2 : string) :
  String.length (s1 +:+ s2) = String.length s1 + String.length s2.
Proof.
  induction s1 as [|a s1 IH]; [done|].
  change (S (String.length (s1 +:+ s2)) = S (String.length s1 + String.length s2)).
  by rewrite IH.
Qed.

(** Two strings that end in suffixes of the same length and are equal have
    the same suffix and the same rest. *)
Lemma append_suffix_inj (p p' s s' : string) :
  String.length s = String.length s' →
  p +:+ s = p' +:+ s' →
  p = p' ∧ s = s'.
Proof.
  intros Hlen. revert p'.
  induction p as [|a p IH]; intros [|a' p'] H.
  - done.
  - exfalso. change (s = String a' (p' +:+ s')) in H.
    apply (f_equal String.length) in H. simpl in H.
    rewrite length_append in H. lia.
  - exfalso. change (String a (p +:+ s) = s') in H.
    apply (f_equal String.length) in H. simpl in H.
    rewrite length_append in H. lia.
  - change (String a (p +:+ s) = String a' (p' +:+ s')) in H.
    injection H as -> H. destruct (IH _ H) as [-> ->]. done.
Qed.

Lemma result_key_inj (p p' b b' : string) :
  b ∈ valid_bys → b' ∈ valid_bys →
  result_key p b = result_key p' b' →
  p = p' ∧ b = b'.
Proof.
  unfold result_key, valid_bys. intros Hb Hb' H.
  apply (inj (String.app "investing_")) in H.
  assert (Hcases : ∀ x, x ∈ ["full_name"; "name"; "symbol"] →
            x = "full_name" ∨ x = "name" ∨ x = "symbol") by set_solver.
  destruct (Hcases _ Hb) as [->|[->| ->]];
    destruct (Hcases _ Hb') as [->|[->| ->]].
  - by destruct (append_suffix_inj p p' _ _ eq_refl H) as [-> _].
  - exfalso.
    change (p +:+ "_by_full_" +:+ "name" = p' +:+ "_by_" +:+ "name") in H.
    rewrite <-!append_assoc in H.
    apply append_suffix_inj in H as [H _]; [|done].
    change (p +:+ "_by_f" +:+ "ull_" = p' +:+ "_by_") in H.
    rewrite <-append_assoc in H.
    by apply append_suffix_inj in H as [_ H].
  - exfalso.
    change (p +:+ "_by_full_nam" +:+ "e" = p' +:+ "_by_symbo" +:+ "l") in H.
    rewrite <-!append_assoc in H.
    by apply append_suffix_inj in H as [_ H].
  - exfalso.
    change (p +:+ "_by_" +:+ "name" = p' +:+ "_by_full_" +:+ "name") in H.
    rewrite <-!append_assoc in H.
    apply append_suffix_inj in H as [H _]; [|done].
    change (p +:+ "_by_" = p' +:+ "_by_f" +:+ "ull_") in H.
    rewrite <-append_assoc in H.
    by apply append_suffix_inj in H as [_ H].
  - by destruct (append_suffix_inj p p' _ _ eq_refl H) as [-> _].
  - exfalso.
    change (p +:+ "_by_nam" +:+ "e" = p' +:+ "_by_symbo" +:+ "l") in H.
    rewrite <-!append_assoc in H.
    by apply append_suffix_inj in H as [_ H].
  - exfalso.
    change (p +:+ "_by_symbo" +:+ "l" = p' +:+ "_by_full_nam" +:+ "e") in H.
    rewrite <-!append_assoc in H.
    by apply append_suffix_inj in H as [_ H].
  - exfalso.
    change (p +:+ "_by_symbo" +:+ "l" = p' +:+ "_by_nam" +:+ "e") in H.
    rewrite <-!append_assoc in H.
    by apply append_suffix_inj in H as [_ H].
  - by destruct (append_suffix_inj p p' _ _ eq_refl H) as [-> _].
Qed.

(** *** The dispatcher's loops *)

(** A loop whose body, when it returns, makes the calls [tr x], needs [P x]
    and updates the accumulator by [g]: the loop returns exactly when [P]
    holds of every element, having made all calls in order. *)
Lemma for_each_Ok {E A B} (body : B → A → traced E B)
    (tr : A → list E) (P : A → Prop) (g : B → A → B) :
  (∀ b x t b', body b x = (t, Ok b') ↔ t = tr x ∧ P x ∧ b' = g b x) →
  ∀ l acc t b',
    for_each l body acc = (t, Ok b') ↔
    t = l ≫= tr ∧ Forall P l ∧ b' = foldl g acc l.
Proof.
  intros Hbody. induction l as [|x l IH]; intros acc t b'; simpl.
  - unfold mret, traced_ret. rewrite Forall_nil. naive_solver.
  - unfold mbind at 1, traced_bind.
    destruct (body acc x) as [t1 [a|e]] eqn:Hx.
    + apply Hbody in Hx as (-> & HP & ->).
      destruct (for_each l body (g acc x)) as [t2 r] eqn:Hl.
      rewrite Forall_cons. split.
      * intros [= <- ->]. apply IH in Hl as (-> & ? & ->). done.
      * intros (-> & [_ HPl] & ->).
        assert (Hl' : for_each l body (g acc x)
                      = (l ≫= tr, Ok (foldl g (g acc x) l))) by by apply IH.
        rewrite Hl in Hl'. by injection Hl' as -> ->.
    + split; [done|]. intros (_ & [HP _]%Forall_cons & _).
      assert (Hx' : body acc x = (tr x, Ok (g acc x))) by by apply Hbody.
      rewrite Hx in Hx'. done.
Qed.

Lemma search_by_Ok query countries product res by_ t res' :
  search_by query countries product res by_ = (t, Ok res') ↔
  t = [CallSearch product by_ query]
  ∧ combination_passes query countries product by_
  ∧ res' = add_result query countries product res by_.
Proof.
  unfold search_by, combination_passes, add_result, contribution, found.
  destruct (investpy_search product by_ query) as [df|e]; simpl.
  - destruct (filter_countries countries df) as [df'|e']; simpl;
      [|naive_solver].
    destruct (decide (0 < length (df_rows df'))) as [Hrows|Hrows]; simpl.
    + destruct (_dataframe_to_symbols df' product) as [symbols|e'']; simpl.
      * naive_solver.
      * split; [done|]. intros (_ & Hpass & _).
        by destruct (Hpass Hrows).
    + split; [naive_solver|]. intros (-> & _ & ->). done.
  - destruct e; simpl; naive_solver.
Qed.

Lemma foldl_bind {A B C} (g : C → B → C) (f : A → list B) (l : list A) (c : C) :
  foldl g c (l ≫= f) = foldl (λ c x, foldl g c (f x)) c l.
Proof.
  revert c. induction l as [|x l IH]; intros c; simpl; [done|].
  by rewrite foldl_app, IH.
Qed.

Lemma fmap_bind {A B C} (f : B → C) (g : A → list B) (l : list A) :
  f <$> (l ≫= g) = l ≫= (λ x, f <$> g x).
Proof.
  induction l as [|x l IH]; [done|].
  by rewrite !bind_cons, fmap_app, IH.
Qed.

Lemma search_loops_Ok query countries products t res :
  for_each products
    (λ res product, for_each valid_bys (search_by query countries product) res)
    ∅ = (t, Ok res) ↔
  t = (λ c, CallSearch c.1 c.2 query) <$> cross_product products
  ∧ Forall (λ c, combination_passes query countries c.1 c.2)
      (cross_product products)
  ∧ res = collect query countries (cross_product products) ∅.
Proof.
  rewrite (for_each_Ok _
    (λ product, (λ by_, CallSearch product by_ query) <$> valid_bys)
    (λ product, Forall (combination_passes query countries product) valid_bys)
    (λ res product, foldl (add_result query countries product) res valid_bys)).
  - unfold cross_product, collect.
    rewrite fmap_bind, Forall_bind, foldl_bind.
    assert (Hpass :
      Forall (λ product, Forall (combination_passes query countries product)
                           valid_bys) products
      ↔ Forall (Forall (λ c : string * string,
                          combination_passes query countries c.1 c.2)
                ∘ (λ product, valid_bys ≫= λ by_, [(product, by_)])) products).
    { apply Forall_iff. intros product. unfold valid_bys. simpl.
      rewrite !Forall_cons, !Forall_nil. done. }
    rewrite Hpass. done.
  - intros b product t' b'.
    rewrite (for_each_Ok _
      (λ by_, [CallSearch product by_ query])
      (combination_passes query countries product)
      (add_result query countries product)).
    + unfold valid_bys. simpl. done.
    + intros. apply search_by_Ok.
Qed.

Lemma elem_of_cross_product products p b :
  (p, b) ∈ cross_product products ↔ p ∈ products ∧ b ∈ valid_bys.
Proof.
  unfold cross_product. rewrite list_elem_of_bind. split.
  - intros (p' & Hin & Hp'). apply list_elem_of_bind in Hin as (b' & Hin & Hb').
    apply list_elem_of_singleton in Hin. by simplify_eq.
  - intros [Hp Hb]. exists p. split; [|done].
    apply list_elem_of_bind. exists b. split; [|done]. by left.
Qed.

Lemma collect_lookup query countries combos p b :
  (∀ c, c ∈ combos → c.2 ∈ valid_bys) →
  b ∈ valid_bys →
  collect query countries combos ∅ !! result_key p b
  = if decide ((p, b) ∈ combos) then contribution query countries p b else None.
Proof.
  intros Hbys Hb. unfold collect.
  induction combos as [|[p' b'] combos IH] using rev_ind.
  - simpl. by rewrite lookup_empty.
  - rewrite foldl_snoc. unfold add_result at 1. simpl.
    assert (Hb' : b' ∈ valid_bys) by (apply (Hbys (p', b')); set_solver).
    assert (IH' := IH (λ c Hc, Hbys c ltac:(set_solver))). clear IH.
    destruct (decide ((p', b') = (p, b))) as [[= -> ->]|Hne].
    + rewrite (decide_True (P := (p, b) ∈ combos ++ [(p, b)])) by set_solver.
      destruct (contribution query countries p b) as [symbols|] eqn:Hc.
      * by rewrite lookup_insert_eq.
      * rewrite IH'. by case_decide.
    + assert (Hkey : result_key p' b' ≠ result_key p b).
      { intros Hk. by destruct (result_key_inj _ _ _ _ Hb' Hb Hk) as [-> ->]. }
      assert (Hmem : (p, b) ∈ combos ++ [(p', b')] ↔ (p, b) ∈ combos)
        by set_solver.
      destruct (contribution query countries p' b') as [symbols|];
        rewrite ?lookup_insert_ne by done; rewrite IH';
        repeat case_decide; naive_solver.
Qed.

Lemma collect_dom query countries combos k :
  k ∈ dom (collect query countries combos ∅) →
  ∃ c, c ∈ combos ∧ k = result_key c.1 c.2.
Proof.
  unfold collect. induction combos as [|c combos IH] using rev_ind.
  - simpl. set_solver.
  - rewrite foldl_snoc. unfold add_result at 1.
    destruct (contribution query countries c.1 c.2) as [symbols|].
    + rewrite dom_insert, elem_of_union, elem_of_singleton.
      intros [->|Hk]; [exists c; set_solver|].
      destruct (IH Hk) as (c' & ? & ?). exists c'. set_solver.
    + intros Hk. destruct (IH Hk) as (c' & ? & ?). exists c'. set_solver.
Qed.






(** *** Further properties of the searches *)

(** X8. [search_for_searchobjs] makes exactly one provider call, to
    [search_quotes] with the lower-cased query, whatever comes of it. When
    that call raises [ValueError] or [RuntimeError] the result is the empty
    dict; any other exception is passed on to the caller. *)
Theorem search_for_searchobjs_one_call query countries products :
  (search_for_searchobjs query countries products).1
  = [CallSearchQuotes (lower query) (products_for_quotes products)
       (as_list countries)]
  ∧ ∀ e,
      investpy_search_quotes
        (lower query) (products_for_quotes products) (as_list countries)
      = Raise e →
      (search_for_searchobjs query countries products).2
      = if decide (e = ValueError ∨ e = RuntimeError) then Ok ∅ else Raise e.
Proof.
  unfold search_for_searchobjs. split.
  - by destruct (investpy_search_quotes _ _ _) as [reply|[]].
  - intros e ->. destruct e; simpl; try case_decide; naive_solver.
Qed.

Lemma mapR_length {A B} (f : A → result B) (l : list A) (ys : list B) :
  mapR f l = Ok ys → length ys = length l.
Proof. intros H%mapR_Forall2. symmetry. by eapply Forall2_length. Qed.

(** X10. [_searchobj_to_symbols] builds one [Symbol] per search object, in
    the order given: named after the object's symbol, with the object's name
    as its only alias, the object's country, the parsed dict as query, and as
    type the singular of a valid pair type and any other pair type as it is.
    It returns exactly when every object's dict literal parses. *)
Theorem searchobj_to_symbols_mapping (objs : list SearchObj) :
  (∀ symbols, _searchobj_to_symbols objs = Ok symbols →
     Forall2
       (λ obj s,
          sym_name s = Some (so_symbol obj)
          ∧ sym_aliases s = [Some (so_name obj)]
          ∧ sym_country s = Some (so_country obj)
          ∧ sym_type_ s =
              (if is_valid (so_pair_type obj)
               then ensure_singular (so_pair_type obj)
               else so_pair_type obj)
          ∧ ∃ d, searchobj_literal obj = Ok d
                 ∧ sym_query s = Some (QueryDict d))
       objs symbols)
  ∧ ((∃ symbols, _searchobj_to_symbols objs = Ok symbols) ↔
     Forall (λ obj, ∃ d, searchobj_literal obj = Ok d) objs).
Proof.
  unfold _searchobj_to_symbols. split.
  - intros symbols H%mapR_Forall2.
    eapply Forall2_impl; [exact H|]. intros obj s. unfold searchobj_to_symbol.
    destruct (searchobj_literal obj) as [d|]; [|done]. simpl.
    intros [= <-]. simpl. eauto 10.
  - split.
    + intros [symbols H%mapR_Forall2]. apply Forall_forall. intros obj Hobj.
      apply list_elem_of_lookup in Hobj as [i Hi].
      destruct (Forall2_lookup_l _ _ _ _ _ H Hi) as (s & _ & Hs).
      unfold searchobj_to_symbol in Hs.
      destruct (searchobj_literal obj) as [d|]; [by eexists|done].
    + intros Hall. apply mapR_total.
      eapply Forall_impl; [exact Hall|]. intros obj [d Hd].
      unfold searchobj_to_symbol. rewrite Hd. by eexists.
Qed.

(** X15. Different combinations of product and match field are filed under
    different keys of the result dict: no search result overwrites another. *)
Theorem result_keys_distinct (p p' b b' : string) :
  b ∈ valid_bys → b' ∈ valid_bys →
  (result_key p b = result_key p' b' ↔ p = p' ∧ b = b').
Proof.
  intros Hb Hb'. split.
  - by apply result_key_inj.
  - by intros [-> ->].
Qed.

(** X16. The aliases [_dataframe_to_symbols] gives a symbol are never
    repeated and are at most three: the row's "name" and "full_name" cells,
    and its "isin" cell when that is neither the chosen name, nor [None], nor
    the empty string. A column that the row lacks counts as [None]. *)
Theorem dataframe_aliases_characterised product d s :
  row_to_symbol product d = Ok s →
  NoDup (sym_aliases s)
  ∧ length (sym_aliases s) ≤ 3
  ∧ ∀ x, x ∈ sym_aliases s ↔
         x = get d "name" ∨ x = get d "full_name"
         ∨ (x = get d "isin" ∧ x ≠ sym_name s ∧ x ≠ None ∧ x ≠ Some "").
Proof.
  intros H. apply row_to_symbol_mapping in H as (_ & _ & _ & _ & ->).
  split_and!.
  - apply NoDup_elements.
  - change (size (alias_set d (sym_name s)) ≤ 3). unfold alias_set.
    assert (Hdiff : ∀ X Y : gset (option string), size (X ∖ Y) ≤ size X)
      by (intros X Y; apply subseteq_size; set_solver).
    rewrite size_union_alt, (size_union_alt {[get d "name"]}), size_singleton.
    pose proof (Hdiff {[get d "full_name"]} {[get d "name"]}) as H1.
    rewrite size_singleton in H1.
    pose proof (Hdiff (({[get d "isin"]} ∖ {[sym_name s]}) ∖ {[None; Some ""]})
                  ({[get d "name"; get d "full_name"]})) as H2.
    pose proof (Hdiff ({[get d "isin"]} ∖ {[sym_name s]})
                  {[None; Some ""]}) as H3.
    pose proof (Hdiff {[get d "isin"]} {[sym_name s]}) as H4.
    rewrite size_singleton in H4. lia.
  - intros x. rewrite elem_of_elements. unfold alias_set. set_solver.
Qed.

(** Where an entry of the result of [search_name_or_symbol] comes from. *)
Lemma result_entry_origin query countries products t res k symbols :
  search_name_or_symbol query countries products = (t, Ok res) →
  res !! k = Some symbols →
  ∃ p b df,
    p ∈ products_to_search products ∧ b ∈ valid_bys ∧ k = result_key p b
    ∧ found (lower query) (as_list countries) p b = Some df
    ∧ _dataframe_to_symbols df p = Ok symbols.
Proof.
  unfold search_name_or_symbol. intros (_ & _ & ->)%search_loops_Ok Hk.
  assert (Hdom : k ∈ dom (collect (lower query) (as_list countries)
                            (cross_product (products_to_search products)) ∅))
    by (apply elem_of_dom; eauto).
  apply collect_dom in Hdom as ([p b] & Hc & ->). simpl in *.
  assert (Hc' := Hc). apply elem_of_cross_product in Hc' as [Hp Hb].
  rewrite collect_lookup in Hk; [|intros [p' b'] Hc''|done].
  2: { by apply elem_of_cross_product in Hc'' as [_ ?]. }
  rewrite decide_True in Hk by done. unfold contribution in Hk.
  destruct (found _ _ p b) as [df|] eqn:Hfound; [|done].
  destruct (_dataframe_to_symbols df p) as [symbols'|] eqn:Hsym; [|done].
  injection Hk as <-. by exists p, b, df.
Qed.

Lemma found_rows query countries p b df :
  found query countries p b = Some df →
  df_rows df ≠ []
  ∧ ∀ cs, countries = Some cs → Forall (row_country_in cs) (df_rows df).
Proof.
  unfold found.
  destruct (investpy_search p b query) as [df0|]; [|done].
  destruct (filter_countries countries df0) as [df'|] eqn:Hfilter; [|done].
  case_decide as Hrows; [|done]. intros [= <-]. split.
  - intros Hnil. rewrite Hnil in Hrows. simpl in Hrows. lia.
  - intros cs ->. simpl in Hfilter. unfold country_isin in Hfilter.
    case_decide; [|done]. injection Hfilter as <-. simpl.
    apply Forall_forall. by intros row [? _]%list_elem_of_filter.
Qed.

(** X11. With [countries] given, every symbol that [search_name_or_symbol]
    returns comes from a row of one of these countries: its country is one of
    them. (A currency cross, the one type that is given no country, cannot be
    returned then unless its dataframe has a country column.) *)
Theorem country_filter_is_sound query countries products cs t res k symbols s :
  search_name_or_symbol query countries products = (t, Ok res) →
  as_list countries = Some cs →
  res !! k = Some symbols →
  s ∈ symbols →
  (∃ c, c ∈ cs ∧ sym_country s = Some (Some c))
  ∨ (sym_type_ s = "currency_cross" ∧ sym_country s = None).
Proof.
  intros Hrun Hcs Hk Hs.
  destruct (result_entry_origin _ _ _ _ _ _ _ Hrun Hk)
    as (p & b & df & _ & _ & _ & Hfound & Hsym).
  apply found_rows in Hfound as [_ Hrows]. specialize (Hrows cs Hcs).
  apply mapR_Forall2 in Hsym.
  apply list_elem_of_lookup in Hs as [i Hi].
  destruct (Forall2_lookup_r _ _ _ _ _ Hsym Hi) as (d & Hd & Hrow).
  apply row_to_symbol_mapping in Hrow as (Htype & _ & _ & Hcountry & _).
  rewrite Forall_forall in Hrows.
  assert (Hin : row_country_in cs d)
    by (apply Hrows; by eapply list_elem_of_lookup_2).
  unfold row_country_in in Hin.
  destruct (decide (ensure_singular p = "currency_cross")) as [Hcc|Hcc].
  - right. by rewrite Htype.
  - left. destruct (d !! "country") as [[c|]|] eqn:Hc; [|done..].
    by exists c.
Qed.

(** X14. With an empty list of countries nothing passes the filter: a call
    that returns, returns the empty dict (having made every provider call). *)
Theorem no_country_no_result query products t res :
  search_name_or_symbol query (ArgList []) products = (t, Ok res) →
  res = ∅
  ∧ t = (λ c, CallSearch c.1 c.2 (lower query))
        <$> cross_product (products_to_search products).
Proof.
  intros Hrun. split.
  - apply map_empty. intros k.
    destruct (res !! k) as [symbols|] eqn:Hk; [|done]. exfalso.
    destruct (result_entry_origin _ _ _ _ _ _ _ Hrun Hk)
      as (p & b & df & _ & _ & _ & Hfound & _).
    apply found_rows in Hfound as [Hne Hrows].
    specialize (Hrows [] eq_refl).
    destruct (df_rows df) as [|row rows]; [done|].
    apply Forall_cons in Hrows as [Hrow _]. unfold row_country_in in Hrow.
    destruct (row !! "country") as [[c|]|]; [|done..].
    by apply not_elem_of_nil in Hrow.
  - unfold search_name_or_symbol in Hrun.
    by apply search_loops_Ok in Hrun as (-> & _ & _).
Qed.

Lemma for_each_cons {E A B} (body : B → A → traced E B) x l acc :
  for_each (x :: l) body acc
  = match body acc x with
    | (t, Ok acc') => let '(t', r) := for_each l body acc' in (t ++ t', r)
    | (t, Raise e) => (t, Raise e)
    end.
Proof. reflexivity. Qed.

Lemma for_each_trace {E A B} (body : B → A → traced E B) (tr : A → list E) :
  (∀ b x, (body b x).1 `prefix_of` tr x) →
  (∀ b x b', (body b x).2 = Ok b' → (body b x).1 = tr x) →
  ∀ l acc,
    (for_each l body acc).1 `prefix_of` l ≫= tr
    ∧ ∀ b', (for_each l body acc).2 = Ok b' → (for_each l body acc).1 = l ≫= tr.
Proof.
  intros Hpre Hfull. induction l as [|x l IH]; intros acc; [done|].
  rewrite for_each_cons, bind_cons.
  specialize (Hpre acc x). specialize (Hfull acc x).
  destruct (body acc x) as [t1 [a|e]]; simpl in *.
  - rewrite (Hfull a eq_refl). destruct (IH a) as [IHpre IHfull].
    destruct (for_each l body a) as [t2 r]; simpl in *. split.
    + by apply prefix_app.
    + intros b' ->. by rewrite (IHfull b' eq_refl).
  - split; [by apply prefix_app_r|done].
Qed.

Lemma search_by_trace query countries product res by_ :
  (search_by query countries product res by_).1
  = [CallSearch product by_ query].
Proof.
  unfold search_by.
  destruct (investpy_search product by_ query) as [df|[]]; simpl; try done.
  destruct (filter_countries countries df) as [df'|]; simpl; [|done].
  case_decide; simpl; [|done].
  by destruct (_dataframe_to_symbols df' product).
Qed.

(** X12. Whatever comes of it, [search_name_or_symbol] only ever queries
    combinations of the cross product, in loop order and without skipping
    any: the provider calls it has made are an initial part of the calls of
    the cross product. When no product is listed twice it never makes the
    same provider call twice. *)
Theorem search_stays_in_cross_product query countries products :
  (search_name_or_symbol query countries products).1
  `prefix_of` (λ c, CallSearch c.1 c.2 (lower query))
              <$> cross_product (products_to_search products)
  ∧ (NoDup (products_to_search products) →
     NoDup (search_name_or_symbol query countries products).1).
Proof.
  assert (Hprefix :
    (search_name_or_symbol query countries products).1
    `prefix_of` (λ c, CallSearch c.1 c.2 (lower query))
                <$> cross_product (products_to_search products)).
  { unfold search_name_or_symbol, cross_product. rewrite fmap_bind.
    apply (for_each_trace _
      (λ product, (λ c : string * string, CallSearch c.1 c.2 (lower query))
                    <$> (valid_bys ≫= λ by_, [(product, by_)]))).
    - intros res product.
      apply (for_each_trace (search_by (lower query) (as_list countries) product)
               (λ by_, [CallSearch product by_ (lower query)])).
      + intros b x. by rewrite search_by_trace.
      + intros b x b' _. apply search_by_trace.
    - intros res product b'.
      apply (for_each_trace (search_by (lower query) (as_list countries) product)
               (λ by_, [CallSearch product by_ (lower query)])).
      + intros b x. by rewrite search_by_trace.
      + intros b x b'' _. apply search_by_trace. }
  split; [done|]. intros Hnodup.
  destruct Hprefix as [rest Hrest].
  assert (Hcalls : NoDup ((λ c : string * string, CallSearch c.1 c.2 (lower query))
                            <$> cross_product (products_to_search products))).
  { apply NoDup_fmap_2_strong.
    - intros [p b] [p' b'] _ _ [= -> ->]. done.
    - unfold cross_product. apply NoDup_bind; [| |done].
      + intros p1 p2 [p b] _ _ Hin1 Hin2.
        apply list_elem_of_bind in Hin1 as (b1 & Hin1 & _).
        apply list_elem_of_bind in Hin2 as (b2 & Hin2 & _).
        apply list_elem_of_singleton in Hin1, Hin2. congruence.
      + intros p _. unfold valid_bys. simpl.
        repeat (apply NoDup_cons; split; [set_solver|]). apply NoDup_nil_2. }
  rewrite Hrest in Hcalls. by apply NoDup_app in Hcalls as [? _].
Qed.

Lemma investing_search_Ok query countries products t res :
  investing_search query countries products = (t, Ok res) →
  ∃ t1 r1 t2 r2,
    search_name_or_symbol query countries products = (t1, Ok r1)
    ∧ search_for_searchobjs query countries products = (t2, Ok r2)
    ∧ t = t1 ++ t2
    ∧ res = r2 ∪ r1.
Proof.
  unfold investing_search, mbind, traced_bind.
  destruct (search_name_or_symbol query countries products) as [t1 [r1|e]];
    [|done].
  destruct (search_for_searchobjs query countries products) as [t2 [r2|e]];
    [|done].
  simpl. rewrite app_nil_r. intros [= <- <-]. by exists t1, r1, t2, r2.
Qed.

Lemma searchobjs_entry_origin query countries products t d k symbols :
  search_for_searchobjs query countries products = (t, Ok d) →
  d !! k = Some symbols →
  (k = "investing_searchobj_perfect" ∨ k = "investing_searchobj_other")
  ∧ ∃ objs, objs ≠ [] ∧ _searchobj_to_symbols objs = Ok symbols.
Proof.
  unfold search_for_searchobjs.
  destruct (investpy_search_quotes _ _ _) as [reply|e]; simpl.
  - unfold lift.
    destruct (triage _ _) as [d'|] eqn:Htriage; [|done].
    intros [= _ <-] Hk.
    destruct (triage_lookup _ _ _ Htriage) as (Hperfect & Hother & Hdom).
    destruct (Hdom k) as [-> | ->]; [apply elem_of_dom; eauto| |].
    + split; [by left|]. apply Hperfect in Hk as [? ?]. eauto.
    + split; [by right|]. apply Hother in Hk as [Hne ?].
      eexists. split; [|done]. intros Hnil. apply Hne.
      by apply elements_empty_inv, leibniz_equiv in Hnil.
  - destruct e; simpl; try done; intros [= _ <-]; by rewrite lookup_empty.
Qed.

Lemma result_key_not_category p b :
  b ∈ valid_bys →
  result_key p b ≠ "investing_searchobj_perfect"
  ∧ result_key p b ≠ "investing_searchobj_other".
Proof.
  unfold result_key, valid_bys. intros Hb.
  assert (Hcases : b = "full_name" ∨ b = "name" ∨ b = "symbol") by set_solver.
  split; intros H; apply (inj (String.app "investing_")) in H.
  - destruct Hcases as [->|[->| ->]].
    + change (p +:+ "_by_full_nam" +:+ "e" = "searchobj_perfec" +:+ "t") in H.
      rewrite <-append_assoc in H.
      by apply append_suffix_inj in H as [_ H].
    + change (p +:+ "_by_nam" +:+ "e" = "searchobj_perfec" +:+ "t") in H.
      rewrite <-append_assoc in H.
      by apply append_suffix_inj in H as [_ H].
    + change (p +:+ "_by_symbo" +:+ "l" = "searchobj_perfec" +:+ "t") in H.
      rewrite <-append_assoc in H.
      by apply append_suffix_inj in H as [_ H].
  - destruct Hcases as [->|[->| ->]].
    + change (p +:+ "_by_full_nam" +:+ "e" = "searchobj_othe" +:+ "r") in H.
      rewrite <-append_assoc in H.
      by apply append_suffix_inj in H as [_ H].
    + change (p +:+ "_by_nam" +:+ "e" = "searchobj_othe" +:+ "r") in H.
      rewrite <-append_assoc in H.
      by apply append_suffix_inj in H as [_ H].
    + change (p +:+ "_by_symbo" +:+ "l" = "searchobj_othe" +:+ "r") in H.
      rewrite <-append_assoc in H.
      by apply append_suffix_inj in H as [_ H].
Qed.

(** X9. [investing_search] runs the search by name or symbol and then the
    search for search objects, and returns the two dicts as one: the keys of
    the two never coincide, so nothing is overwritten in the merge. When the
    first search raises, the second is not started. *)
Theorem investing_search_combines query countries products :
  (∀ t1 e,
     search_name_or_symbol query countries products = (t1, Raise e) →
     investing_search query countries products = (t1, Raise e))
  ∧ (∀ t res,
       investing_search query countries products = (t, Ok res) →
       ∃ t1 r1 t2 r2,
         search_name_or_symbol query countries products = (t1, Ok r1)
         ∧ search_for_searchobjs query countries products = (t2, Ok r2)
         ∧ t = t1 ++ t2
         ∧ dom r1 ## dom r2
         ∧ res = r1 ∪ r2
         ∧ ∀ k, res !! k = match r1 !! k with
                           | Some symbols => Some symbols
                           | None => r2 !! k
                           end).
Proof.
  split.
  - intros t1 e Hrun. unfold investing_search, mbind, traced_bind.
    by rewrite Hrun.
  - intros t res (t1 & r1 & t2 & r2 & H1 & H2 & -> & ->)%investing_search_Ok.
    exists t1, r1, t2, r2.
    assert (Hdisj : dom r1 ## dom r2).
    { intros k [symbols1 Hk1]%elem_of_dom [symbols2 Hk2]%elem_of_dom.
      destruct (result_entry_origin _ _ _ _ _ _ _ H1 Hk1)
        as (p & b & _ & _ & Hb & -> & _).
      destruct (searchobjs_entry_origin _ _ _ _ _ _ _ H2 Hk2) as [Hkey _].
      destruct (result_key_not_category p b Hb). naive_solver. }
    split_and!; [done..| |].
    + apply map_union_comm. by apply map_disjoint_dom_2.
    + intros k. rewrite lookup_union.
      destruct (r1 !! k) as [symbols1|] eqn:Hk1;
        destruct (r2 !! k) as [symbols2|] eqn:Hk2; try done.
      exfalso. apply (Hdisj k); apply elem_of_dom; eauto.
Qed.

(** X13. No key of the dict that [investing_search] returns holds an empty
    list: a category or a combination without results has no key. *)
Theorem investing_search_lists_nonempty query countries products t res k symbols :
  investing_search query countries products = (t, Ok res) →
  res !! k = Some symbols →
  symbols ≠ [].
Proof.
  intros (t1 & r1 & t2 & r2 & H1 & H2 & _ & ->)%investing_search_Ok Hk.
  apply lookup_union_Some_raw in Hk as [Hk|[_ Hk]].
  - destruct (searchobjs_entry_origin _ _ _ _ _ _ _ H2 Hk)
      as (_ & objs & Hne & Hsym).
    apply mapR_length in Hsym. intros ->. simpl in Hsym.
    by destruct objs.
  - destruct (result_entry_origin _ _ _ _ _ _ _ H1 Hk)
      as (p & b & df & _ & _ & _ & Hfound & Hsym).
    apply found_rows in Hfound as [Hne _].
    apply mapR_length in Hsym. intros ->. simpl in Hsym.
    by destruct (df_rows df).
Qed.

End WithProvider.

Arguments stands_for {Payload} s x.

Arguments QueryCell {Payload} c.
Arguments QueryDict {Payload} d.


Arguments sym_name {Payload} s.
Arguments sym_type_ {Payload} s.
Arguments sym_country {Payload} s.
Arguments sym_query {Payload} s.
Arguments sym_aliases {Payload} s.

(** *** The functions on the sample provider *)

(** The bond-like row of the sample: the symbol is named after the "name"
    column, and that name is still among its aliases. *)
Example gold_symbol :
  _dataframe_to_symbols sample_singular SearchObj gold_frame "commodities"
  = Ok [ {| sym_name := Some "Gold";
            sym_type_ := "commodity";
            sym_country := Some None;
            sym_query := None;
            sym_aliases := [Some "Gold Futures"; Some "Gold"] |} ].
Proof. vm_compute. reflexivity. Qed.

(** Searching "Gold" among commodities and a product that does not exist:
    three provider calls, one key. *)
Example search_gold :
  search_name_or_symbol sample_plurals sample_singular sample_search SearchObj
    "Gold" ArgNone (ArgList ["commodities"; "nonsense"])
  = ([CallSearch "commodities" "full_name" "gold";
      CallSearch "commodities" "name" "gold";
      CallSearch "commodities" "symbol" "gold"],
     Ok {[ "investing_commodities_by_name" :=
             [ {| sym_name := Some "Gold";
                  sym_type_ := "commodity";
                  sym_country := Some None;
                  sym_query := None;
                  sym_aliases := [Some "Gold Futures"; Some "Gold"] |} ] ]}).
Proof. vm_compute. reflexivity. Qed.

(** With a country filter the sample's commodity row, whose country is
    [None], is filtered out. *)
Example search_gold_in_country :
  search_name_or_symbol sample_plurals sample_singular sample_search SearchObj
    "Gold" (ArgStr "united states") (ArgStr "commodities")
  = ([CallSearch "commodities" "full_name" "gold";
      CallSearch "commodities" "name" "gold";
      CallSearch "commodities" "symbol" "gold"],
     Ok ∅).
Proof. vm_compute. reflexivity. Qed.

Example triage_aapl :
  perfect_matches (lower "AAPL") [apple; apple_hospitality] = [apple]
  ∧ elements (other_matches [apple; apple_hospitality]
                (perfect_matches (lower "AAPL") [apple; apple_hospitality]))
    = [apple_hospitality].
Proof. split; vm_compute; reflexivity. Qed.

(** A list without repetition whose one member is [a] is [[a]]. *)
Lemma NoDup_only {A} (l : list A) (a : A) :
  NoDup l → (∀ x, x ∈ l ↔ x = a) → l = [a].
Proof.
  intros Hnodup Hmem. apply Permutation_singleton_r.
  apply NoDup_Permutation; [done|apply NoDup_singleton|].
  intros x. by rewrite Hmem, list_elem_of_singleton.
Qed.

(** The sample reply to "AAPL" holds Apple, whose symbol is the query, and
    Apple Hospitality, which only resembles it: the dict files the first
    under the perfect matches and the second under the other matches. *)
Lemma search_for_searchobjs_triage_witness :
  ∃ d perfect_symbols other_symbols,
    (search_for_searchobjs sample_plurals sample_singular sample_is_valid
       sample_search_quotes SearchObj sample_literal
       "AAPL" ArgNone ArgNone).2 = Ok d
    ∧ d !! "investing_searchobj_perfect" = Some perfect_symbols
    ∧ Forall2 stands_for perfect_symbols [apple]
    ∧ d !! "investing_searchobj_other" = Some other_symbols
    ∧ Forall2 stands_for other_symbols [apple_hospitality].
Proof.
  destruct (search_for_searchobjs_triage
              sample_plurals sample_singular sample_is_valid sample_search
              sample_search_quotes SearchObj sample_literal
              "AAPL" ArgNone ArgNone (ReplyList [apple; apple_hospitality])
              eq_refl) as [Hsorted Hreturns].
  destruct Hreturns as [d Hd]; [repeat constructor; by eexists|].
  destruct (Hsorted
              (search_for_searchobjs sample_plurals sample_singular
                 sample_is_valid sample_search_quotes SearchObj sample_literal
                 "AAPL" ArgNone ArgNone).1 d)
    as (perfect & other & Hperfect & _ & Hnodup & Hother & _ & Hkp & Hko & _).
  { rewrite <-Hd. by destruct (search_for_searchobjs _ _ _ _ _ _ _ _ _). }
  assert (perfect = [apple]) as -> by (rewrite Hperfect; vm_compute; reflexivity).
  assert (other = [apple_hospitality]) as ->.
  { apply NoDup_only; [done|]. intros x. rewrite Hother. simpl. split.
    - intros [[->|Hx]%elem_of_cons Hnot];
        [|by apply list_elem_of_singleton in Hx].
      exfalso. apply Hnot. left. reflexivity.
    - intros ->. split.
      + apply elem_of_cons. right. apply elem_of_cons. by left.
      + intros [H|H]; vm_compute in H; discriminate H. }
  destruct (d !! "investing_searchobj_perfect") as [perfect_symbols|] eqn:Hp;
    [|discriminate Hkp].
  destruct (d !! "investing_searchobj_other") as [other_symbols|] eqn:Ho;
    [|discriminate Hko].
  exists d, perfect_symbols, other_symbols.
  destruct Hkp as [_ Hkp]. destruct Hko as [_ Hko].
  repeat split; assumption.
Defined.


Lemma dataframe_aliases_keep_chosen_name_witness :
  ∃ s, row_to_symbol sample_singular SearchObj "commodities" gold_row = Ok s
       ∧ sym_name s = Some "Gold"
       ∧ sym_name s ∈ sym_aliases s.
Proof.
  eexists. split_and!; [reflexivity|reflexivity|].
  apply (dataframe_aliases_keep_chosen_name
           sample_singular sample_is_valid sample_search sample_search_quotes
           SearchObj "commodities" gold_row).
  - vm_compute. set_solver.
  - reflexivity.
Defined.

Lemma invalid_products_diverge_witness :
  search_name_or_symbol sample_plurals sample_singular sample_search SearchObj
    "AAPL" ArgNone (ArgList ["nonsense"]) = ([], Ok ∅)
  ∧ (search_for_searchobjs sample_plurals sample_singular sample_is_valid
       sample_search_quotes SearchObj sample_literal
       "AAPL" ArgNone (ArgList ["nonsense"])).1
    = [CallSearchQuotes "aapl" None None].
Proof.
  destruct (invalid_products_diverge
              sample_plurals sample_singular sample_is_valid sample_search
              sample_search_quotes SearchObj sample_literal
              "AAPL" ArgNone ["nonsense"]) as (Hnone & _ & Hcall & _).
  - done.
  - intros p ->%list_elem_of_singleton. vm_compute. set_solver.
  - split; [exact Hnone|exact Hcall].
Defined.

(** The stock of the second sample provider, as [_dataframe_to_symbols]
    builds it. *)
Example apple_symbol :
  _dataframe_to_symbols sample_singular SearchObj apple_frame "stocks"
  = Ok [ {| sym_name := Some "AAPL";
            sym_type_ := "stock";
            sym_country := Some (Some "united states");
            sym_query := None;
            sym_aliases :=
              [Some "US0378331005"; Some "Apple Inc"; Some "Apple"] |} ].
Proof. vm_compute. reflexivity. Qed.

Lemma country_filter_is_sound_witness :
  (∃ c, c ∈ ["united states"]
        ∧ Some (Some "united states") = Some (Some c))
  ∨ ("stock" = "currency_cross"
     ∧ Some (Some "united states") = @None (option string)).
Proof.
  eapply (country_filter_is_sound sample_plurals sample_singular
            sample_is_valid stock_search sample_search_quotes SearchObj
            "AAPL" (ArgStr "united states") (ArgStr "stocks")
            ["united states"] _ _ "investing_stocks_by_symbol" _
            {| sym_name := Some "AAPL";
               sym_type_ := "stock";
               sym_country := Some (Some "united states");
               sym_query := None;
               sym_aliases :=
                 [Some "US0378331005"; Some "Apple Inc"; Some "Apple"] |}).
  - vm_compute. reflexivity.
  - reflexivity.
  - vm_compute. reflexivity.
  - set_solver.
Defined.

Lemma no_country_no_result_witness :
  (search_name_or_symbol sample_plurals sample_singular stock_search SearchObj
     "AAPL" (ArgList []) (ArgStr "stocks")).2 = Ok ∅.
Proof.
  destruct (no_country_no_result sample_plurals sample_singular
              sample_is_valid stock_search sample_search_quotes SearchObj
              "AAPL" (ArgStr "stocks")
              (search_name_or_symbol sample_plurals sample_singular
                 stock_search SearchObj "AAPL" (ArgList []) (ArgStr "stocks")).1
              (match (search_name_or_symbol sample_plurals sample_singular
                        stock_search SearchObj "AAPL" (ArgList [])
                        (ArgStr "stocks")).2
               with Ok res => res | Raise _ => ∅ end)) as [Hres _].
  - vm_compute. reflexivity.
  - rewrite <-Hres. vm_compute. reflexivity.
Defined.

Lemma investing_search_lists_nonempty_witness :
  (investing_search sample_plurals sample_singular sample_is_valid
     sample_search sample_search_quotes SearchObj sample_literal
     "Gold" ArgNone (ArgStr "commodities")).1
  = [CallSearch "commodities" "full_name" "gold";
     CallSearch "commodities" "name" "gold";
     CallSearch "commodities" "symbol" "gold";
     CallSearchQuotes "gold" (Some ["commodities"]) None]
  ∧ [ {| sym_name := Some "Gold";
         sym_type_ := "commodity";
         sym_country := Some None;
         sym_query := @None (QueryArg SearchObj);
         sym_aliases := [Some "Gold Futures"; Some "Gold"] |} ] ≠ [].
Proof.
  split; [vm_compute; reflexivity|].
  eapply (investing_search_lists_nonempty sample_plurals sample_singular
            sample_is_valid sample_search sample_search_quotes SearchObj
            sample_literal "Gold" ArgNone (ArgStr "commodities")
            _ _ "investing_commodities_by_name").
  - vm_compute. reflexivity.
  - vm_compute. reflexivity.
Defined.

Lemma result_keys_distinct_witness :
  result_key "stocks" "name" = result_key "stocks" "name"
  ↔ "stocks" = "stocks" ∧ "name" = "name".
Proof.
  apply (result_keys_distinct sample_singular sample_is_valid sample_search
           sample_search_quotes "stocks" "stocks" "name" "name");
    unfold valid_bys; set_solver.
Defined.

Lemma dataframe_aliases_characterised_witness :
  NoDup [Some "US0378331005"; Some "Apple Inc"; Some "Apple"]
  ∧ length [Some "US0378331005"; Some "Apple Inc"; Some "Apple"] ≤ 3.
Proof.
  destruct (dataframe_aliases_characterised sample_singular sample_is_valid
              sample_search sample_search_quotes SearchObj "stocks" apple_row
              {| sym_name := Some "AAPL";
                 sym_type_ := "stock";
                 sym_country := Some (Some "united states");
                 sym_query := None;
                 sym_aliases :=
                   [Some "US0378331005"; Some "Apple Inc"; Some "Apple"] |})
    as (Hnodup & Hlen & _).
  - vm_compute. reflexivity.
  - split; [exact Hnodup|exact Hlen].
Defined.

End InvestingSearch.

(** ** Properties of [tessa/price/price.py] *)

Module PriceSpec.
Import Price.

(** *** Upper case *)

Lemma is_lower_upper_ascii (c : ascii) : is_lower_ascii (upper_ascii c) = false.
Proof. destruct c as [[] [] [] [] [] [] [] []]; reflexivity. Qed.


Lemma has_lower_upper (s : string) : has_lower (upper s) = false.
Proof.
  induction s as [|c s IH]; [done|]. simpl.
  by rewrite is_lower_upper_ascii, IH.
Qed.


Section WithSources.

Context {float Source : Type}.
Variable get_source : string → result Source.
Variable get_price_history_bruteforcefully :
  Source → nat → string → string → result (Frame float * string).

Abbreviation price_history_body :=
  (Price.price_history_body get_source get_price_history_bruteforcefully).
Abbreviation price_history_function :=
  (Price.price_history_function get_source get_price_history_bruteforcefully).
Abbreviation price_history :=
  (Price.price_history get_source get_price_history_bruteforcefully).
Abbreviation price_point :=
  (Price.price_point get_source get_price_history_bruteforcefully).
Abbreviation price_point_strict :=
  (Price.price_point_strict get_source get_price_history_bruteforcefully).
Abbreviation price_latest :=
  (Price.price_latest get_source get_price_history_bruteforcefully).
Abbreviation call := (Price.call get_source get_price_history_bruteforcefully).
Abbreviation step := (Price.step get_source get_price_history_bruteforcefully).
Abbreviation reachable :=
  (Price.reachable get_source get_price_history_bruteforcefully).
Abbreviation reachable_by_calls :=
  (Price.reachable_by_calls get_source get_price_history_bruteforcefully).
Abbreviation cache_faithful :=
  (Price.cache_faithful get_source get_price_history_bruteforcefully).

(** *** Binding the arguments of a call *)

(** Three positional arguments are the three parameters. *)
Lemma bind_positional q s c : bind_arguments (positional q s c) = Ok (q, s, c).
Proof. reflexivity. Qed.

(** *** What a call to [price_history] does to the state *)

(** A call that returns either found its arguments in the cache and changed
    nothing, or missed, queried the source once, allocated the copy and
    stored the result under the arguments as written. *)
Lemma price_history_call_Ok args (σ σ' : State float) ph :
  price_history args σ = (σ', Ok ph) →
  (cache σ !! args = Some ph ∧ σ' = σ)
  ∨ (cache σ !! args = None
     ∧ ∃ q s c src df cur,
         bind_arguments args = Ok (q, s, c)
         ∧ get_source s = Ok src
         ∧ get_price_history_bruteforcefully src (length (queries σ)) q c
           = Ok (df, cur)
         ∧ ph = {| ph_df := length (heap σ); ph_currency := upper cur |}
         ∧ σ' = {| heap := heap σ ++ [df];
                   cache := <[args := ph]> (cache σ);
                   queries := queries σ ++ [(q, s, c)] |}).
Proof.
  unfold Price.price_history, custom_cache_wrapper, Price.price_history_function.
  destruct (cache σ !! args) as [ph'|] eqn:Hc.
  - intros [= <- <-]. by left.
  - intros H. right. split; [done|].
    destruct (bind_arguments args) as [[[q s] c]|e]; [|done].
    unfold Price.price_history_body in H.
    destruct (get_source s) as [src|e] eqn:Hsrc; [|done].
    destruct (get_price_history_bruteforcefully _ _ _ _) as [[df cur]|e] eqn:Hf;
      [|done].
    simpl in H. injection H as <- <-. by exists q, s, c, src, df, cur.
Qed.

Lemma price_history_Ok q s c (σ σ' : State float) ph :
  price_history (positional q s c) σ = (σ', Ok ph) →
  (cache σ !! positional q s c = Some ph ∧ σ' = σ)
  ∨ (cache σ !! positional q s c = None
     ∧ ∃ src df cur,
         get_source s = Ok src
         ∧ get_price_history_bruteforcefully src (length (queries σ)) q c
           = Ok (df, cur)
         ∧ ph = {| ph_df := length (heap σ); ph_currency := upper cur |}
         ∧ σ' = {| heap := heap σ ++ [df];
                   cache := <[positional q s c := ph]> (cache σ);
                   queries := queries σ ++ [(q, s, c)] |}).
Proof.
  intros [?|(Hc & q' & s' & c' & src & df & cur & Hbind & H)]%price_history_call_Ok;
    [by left|right].
  rewrite bind_positional in Hbind. injection Hbind as <- <- <-.
  split; [done|]. by exists src, df, cur.
Qed.

(** A call that raises leaves the dataframes and the cache as they were. *)
Lemma price_history_Raise args (σ σ' : State float) e :
  price_history args σ = (σ', Raise e) →
  heap σ' = heap σ ∧ cache σ' = cache σ.
Proof.
  unfold Price.price_history, custom_cache_wrapper, Price.price_history_function.
  destruct (cache σ !! args) as [ph'|]; [done|].
  destruct (bind_arguments args) as [[[q s] c]|e0]; [|by intros [= <- _]].
  unfold Price.price_history_body.
  destruct (get_source s) as [src|e']; [|by intros [= <- _]].
  destruct (get_price_history_bruteforcefully _ _ _ _) as [[df cur]|e'];
    [done|].
  by intros [= <- _].
Qed.

(** Once a call has returned, its arguments are in the cache. *)
Lemma price_history_cached args (σ σ' : State float) ph :
  price_history args σ = (σ', Ok ph) → cache σ' !! args = Some ph.
Proof.
  intros [[Hc ->]|(_ & q & s & c & src & df & cur & _ & _ & _ & _ & ->)]
    %price_history_call_Ok; [done|].
  simpl. apply lookup_insert_eq.
Qed.

(** A call whose arguments are in the cache is served from it. *)
Lemma price_history_hit args (σ : State float) ph :
  cache σ !! args = Some ph → price_history args σ = (σ, Ok ph).
Proof. unfold Price.price_history, custom_cache_wrapper. by intros ->. Qed.

(** Every function of the module changes the state as its call to
    [price_history] does. *)
Lemma call_price_history_state (σ σ' : State float) :
  call σ σ' → ∃ args, σ' = (price_history args σ).1.
Proof.
  intros [args σ0|q w s c σ0|q w s c σ0|q s c σ0];
    [by exists args|exists (positional q s c)..];
    unfold Price.price_point, Price.price_point_strict, Price.price_latest;
    by destruct (price_history (positional q s c) σ0) as [σ1 [ph|e]].
Qed.

(** *** Invariants of the cache *)

Lemma cache_ok_price_history args (σ : State float) :
  cache_ok σ → cache_ok (price_history args σ).1.
Proof.
  intros Hok. destruct (price_history args σ) as [σ' [ph|e]] eqn:Hrun; simpl.
  - apply price_history_call_Ok in Hrun
      as [[_ ->]|(_ & q & s & c & src & df & cur & _ & _ & _ & -> & ->)];
      [done|].
    intros key ph. simpl. rewrite length_app. simpl.
    destruct (decide (key = args)) as [->|Hne].
    + rewrite lookup_insert_eq. intros [= <-]. simpl.
      split; [lia|apply has_lower_upper].
    + rewrite lookup_insert_ne by done. intros Hc.
      destruct (Hok _ _ Hc). split; [lia|done].
  - apply price_history_Raise in Hrun as [Hh Hc].
    unfold cache_ok. by rewrite Hh, Hc.
Qed.

Lemma cache_ok_step (σ σ' : State float) :
  step σ σ' → cache_ok σ → cache_ok σ'.
Proof.
  intros [σ0 σ1 Hcall|r f σ0 Hr] Hok.
  - apply call_price_history_state in Hcall as (args & ->).
    by apply cache_ok_price_history.
  - unfold cache_ok, mutate. simpl. by rewrite length_insert.
Qed.

Lemma reachable_cache_ok (σ : State float) : reachable σ → cache_ok σ.
Proof.
  unfold Price.reachable. revert σ. apply rtc_ind_r.
  - intros key ph. unfold initial. simpl. by rewrite lookup_empty.
  - intros σ1 σ2 _ Hstep IH. by eapply cache_ok_step.
Qed.

Section Deterministic.

(** The sources answer a query the same whenever it is asked. *)
Hypothesis deterministic : ∀ src n m q c,
  get_price_history_bruteforcefully src n q c
  = get_price_history_bruteforcefully src m q c.

Lemma cache_faithful_price_history args (σ : State float) :
  cache_faithful σ → cache_faithful (price_history args σ).1.
Proof using deterministic.
  intros Hok. destruct (price_history args σ) as [σ' [ph|e]] eqn:Hrun; simpl.
  - apply price_history_call_Ok in Hrun
      as [[_ ->]|(_ & q & s & c & src & df & cur & Hbind & Hsrc & Hfetch & -> & ->)];
      [done|].
    intros args' ph. simpl.
    destruct (decide (args' = args)) as [->|Hne].
    + rewrite lookup_insert_eq. intros [= <-]. simpl.
      exists q, s, c, src, df, cur.
      split_and!; [done|done| |by apply list_lookup_middle|done].
      by rewrite (deterministic src 0 (length (queries σ))).
    + rewrite lookup_insert_ne by done. intros Hc.
      destruct (Hok _ _ Hc)
        as (q' & s' & c' & src' & df' & cur' & ? & ? & ? & Hdf & ?).
      exists q', s', c', src', df', cur'. split_and!; [done|done|done| |done].
      by apply lookup_app_l_Some.
  - apply price_history_Raise in Hrun as [Hh Hc].
    unfold Price.cache_faithful. by rewrite Hh, Hc.
Qed.

Lemma reachable_by_calls_faithful (σ : State float) :
  reachable_by_calls σ → cache_faithful σ.
Proof using deterministic.
  unfold Price.reachable_by_calls. revert σ. apply rtc_ind_r.
  - intros args ph. unfold initial. simpl. by rewrite lookup_empty.
  - intros σ1 σ2 _ Hcall IH.
    apply call_price_history_state in Hcall as (args & ->).
    by apply cache_faithful_price_history.
Qed.

(** The memoised function shows a caller what the function it wraps would,
    however the call is written. *)
Lemma price_history_refines_function args (σ : State float) :
  reachable_by_calls σ →
  observe (price_history args σ) = observe (price_history_function args σ).
Proof using deterministic.
  intros Hfaithful%reachable_by_calls_faithful.
  unfold Price.price_history, custom_cache_wrapper.
  destruct (cache σ !! args) as [ph|] eqn:Hc.
  - destruct (Hfaithful _ _ Hc)
      as (q & s & c & src & df & cur & Hbind & Hsrc & Hfetch & Hdf & Hcur).
    unfold Price.price_history_function, Price.price_history_body.
    rewrite Hbind, Hsrc.
    rewrite (deterministic src (length (queries σ)) 0), Hfetch.
    simpl. unfold deref. simpl.
    by rewrite Hdf, list_lookup_middle, Hcur.
  - by destruct (price_history_function args σ) as [σ' [ph|e]].
Qed.

End Deterministic.

(** *** Memoisation *)

Lemma cache_entry_kept_by_price_history args (σ : State float) key ph :
  cache σ !! key = Some ph → cache (price_history args σ).1 !! key = Some ph.
Proof.
  intros Hc. destruct (price_history args σ) as [σ' [ph'|e]] eqn:Hrun; simpl.
  - apply price_history_call_Ok in Hrun
      as [[_ ->]|(Hnone & q & s & c & src & df & cur & _ & _ & _ & _ & ->)];
      [done|].
    simpl. rewrite lookup_insert_ne; [done|]. intros <-. congruence.
  - apply price_history_Raise in Hrun as [_ Hcache]. by rewrite Hcache.
Qed.

(** Nothing a client does removes or changes a cache entry. *)
Lemma cache_entry_kept (σ σ' : State float) key ph :
  rtc step σ σ' → cache σ !! key = Some ph → cache σ' !! key = Some ph.
Proof.
  induction 1 as [|σ1 σ2 σ3 Hstep _ IH]; [done|]. intros Hc. apply IH.
  destruct Hstep as [σ1 σ2 Hcall|r f σ1 _]; [|done].
  apply call_price_history_state in Hcall as (args & ->).
  by apply cache_entry_kept_by_price_history.
Qed.

(** Arguments that are not in the cache are not served from it, whatever
    else is cached: the wrapped function runs. *)
Lemma price_history_miss args (σ : State float) :
  cache σ !! args = None →
  observe (price_history args σ) = observe (price_history_function args σ)
  ∧ queries (price_history args σ).1
    = queries (price_history_function args σ).1.
Proof.
  unfold Price.price_history, custom_cache_wrapper. intros ->.
  by destruct (price_history_function args σ) as [σ' [ph|e]].
Qed.

(** A call files its result under its own arguments and touches no other
    entry. *)
Lemma price_history_other_entries args args' (σ : State float) :
  args' ≠ args → cache (price_history args σ).1 !! args' = cache σ !! args'.
Proof.
  intros Hne. destruct (price_history args σ) as [σ' [ph|e]] eqn:Hrun; simpl.
  - apply price_history_call_Ok in Hrun
      as [[_ ->]|(_ & q & s & c & src & df & cur & _ & _ & _ & _ & ->)];
      [done|].
    simpl. by rewrite lookup_insert_ne.
  - apply price_history_Raise in Hrun as [_ Hcache]. by rewrite Hcache.
Qed.

(** C5 (as the code has it). The cache of [price_history] is keyed on the
    arguments as the call writes them. Once a call has returned, a second
    call written with the same arguments, at once or after whatever else the
    client does, returns the same [PriceHistory]: it finds the first call's
    result, leaves the state alone and sends no query; and the first call
    sent at most one query, the one its arguments stand for. A call files
    its result under its own arguments only, and a call whose arguments as
    written are not in the cache runs the wrapped function, whatever is
    cached under other ways of writing the same query, source and currency
    preference. When the sources answer a query the same
    whenever asked, the memoised function shows a caller who never writes
    into a dataframe what the function it wraps would show, however the call
    is written. *)
Theorem price_history_memoized args (σ : State float) :
  (∀ σ1 ph1,
     price_history args σ = (σ1, Ok ph1) →
     (queries σ1 = queries σ
      ∨ ∃ key, bind_arguments args = Ok key ∧ queries σ1 = queries σ ++ [key])
     ∧ ∀ σ2, rtc step σ1 σ2 →
         price_history args σ2 = (σ2, Ok ph1)
         ∧ queries (price_history args σ2).1 = queries σ2)
  ∧ (∀ args', args' ≠ args →
       cache (price_history args σ).1 !! args' = cache σ !! args')
  ∧ (cache σ !! args = None →
     observe (price_history args σ) = observe (price_history_function args σ)
     ∧ queries (price_history args σ).1
       = queries (price_history_function args σ).1)
  ∧ ((∀ src n m q' c',
        get_price_history_bruteforcefully src n q' c'
        = get_price_history_bruteforcefully src m q' c') →
     reachable_by_calls σ →
     observe (price_history args σ) = observe (price_history_function args σ)).
Proof.
  split.
  - intros σ1 ph1 H1. split.
    + apply price_history_call_Ok in H1
        as [[_ ->]|(_ & q & s & c & src & df & cur & Hbind & _ & _ & _ & ->)];
        [by left|right]. by exists (q, s, c).
    + intros σ2 Hsteps.
      assert (Hc : cache σ2 !! args = Some ph1).
      { eapply cache_entry_kept; [exact Hsteps|].
        by eapply price_history_cached. }
      by rewrite (price_history_hit _ _ _ Hc).
  - split_and!; [|apply price_history_miss|].
    + intros args' Hne. by apply price_history_other_entries.
    + intros Hdet Hreach. by apply price_history_refines_function.
Qed.

(** *** The dataframe behind a cache entry *)

Lemma price_latest_unfold q s c (σ σ' : State float) ph df :
  price_history (positional q s c) σ = (σ', Ok ph) →
  deref σ' (ph_df ph) = Ok df →
  price_latest q s c σ
  = (σ', row ← iloc df (-1);
         Ok {| pp_when := row.1; pp_price := row.2;
               pp_currency := ph_currency ph |}).
Proof.
  unfold Price.price_latest. intros -> ->. simpl.
  by destruct (iloc df (-1)).
Qed.

(** C6 (the code departs from the claim). [df.copy()] runs inside the cached
    function, once per cache miss: every later call with the same arguments
    returns the very dataframe object the first call returned. So after a
    caller has written [df'] into the dataframe it was handed, [price_history]
    returns that object with content [df'], and [price_latest] reads its
    answer from [df']. *)
Theorem cached_frame_is_shared q s c (σ σ1 : State float) ph (df' : Frame float) :
  reachable σ →
  price_history (positional q s c) σ = (σ1, Ok ph) →
  let σ2 := mutate (ph_df ph) df' σ1 in
  step σ1 σ2
  ∧ price_history (positional q s c) σ2 = (σ2, Ok ph)
  ∧ deref σ2 (ph_df ph) = Ok df'
  ∧ price_latest q s c σ2
    = (σ2, row ← iloc df' (-1);
           Ok {| pp_when := row.1; pp_price := row.2;
                 pp_currency := ph_currency ph |}).
Proof.
  intros Hreach Hrun σ2.
  assert (Hc := price_history_cached _ _ _ _ Hrun).
  assert (Hok : cache_ok σ1).
  { apply reachable_cache_ok. unfold Price.reachable in *.
    eapply rtc_r; [exact Hreach|]. apply step_call.
    replace σ1 with (price_history (positional q s c) σ).1 by by rewrite Hrun.
    constructor. }
  destruct (Hok _ _ Hc) as [Href _].
  assert (Hhit : price_history (positional q s c) σ2 = (σ2, Ok ph))
    by by apply price_history_hit.
  assert (Hderef : deref σ2 (ph_df ph) = Ok df').
  { unfold deref, σ2, mutate. simpl. by rewrite list_lookup_insert_eq. }
  split_and!; [by constructor|done|done|].
  by apply price_latest_unfold.
Qed.

(** *** Currency *)


(** *** Looking up a point in time *)

Lemma filter_label_nil (df : Frame float) when :
  filter (λ row : Z * float, row.1 = when) df = [] ↔ when ∉ index df.
Proof.
  unfold index. induction df as [|row df IH]; simpl.
  - split; [intros _; apply not_elem_of_nil|done].
  - rewrite not_elem_of_cons.
    destruct (decide (row.1 = when)) as [Heq|Hne].
    + rewrite filter_cons_True by done. naive_solver.
    + rewrite filter_cons_False by done. rewrite IH. naive_solver.
Qed.

Lemma filter_label_unique (df : Frame float) when price :
  NoDup (index df) →
  (when, price) ∈ df →
  filter (λ row : Z * float, row.1 = when) df = [(when, price)].
Proof.
  unfold index. induction df as [|row df IH]; simpl.
  - intros _ Hin. by apply not_elem_of_nil in Hin.
  - intros [Hnotin Hnodup]%NoDup_cons Hin.
    apply elem_of_cons in Hin as [<-|Hin].
    + rewrite filter_cons_True by done. f_equal.
      by apply (filter_label_nil df when).
    + assert (Hlabel : when ∈ df.*1).
      { apply list_elem_of_fmap. by exists (when, price). }
      rewrite filter_cons_False by (intros Heq; apply Hnotin; by rewrite Heq).
      by apply IH.
Qed.

Lemma loc_KeyError (df : Frame float) when :
  loc df when = Raise KeyError ↔ when ∉ index df.
Proof.
  rewrite <-filter_label_nil. unfold loc.
  by destruct (filter _ df) as [|row [|row' rows]].
Qed.

Lemma loc_present (df : Frame float) when price :
  NoDup (index df) → (when, price) ∈ df → loc df when = Ok (when, price).
Proof.
  intros Hnodup Hin. unfold loc.
  by rewrite (filter_label_unique df when price).
Qed.

Lemma iloc_position (df : Frame float) (i : nat) row :
  df !! i = Some row → iloc df (Z.of_nat i) = Ok row.
Proof.
  intros Hrow. unfold iloc.
  assert (Hlt : i < length df) by by eapply lookup_lt_Some.
  assert (Hneg : (Z.of_nat i <? 0)%Z = false) by lia. rewrite Hneg.
  assert (Hin : ((0 <=? Z.of_nat i) && (Z.of_nat i <? Z.of_nat (length df)))%Z
                = true) by lia.
  rewrite Hin, Nat2Z.id. by rewrite Hrow.
Qed.

Lemma closer_le target a b :
  closer target a b = true → (Z.abs (a - target) ≤ Z.abs (b - target))%Z.
Proof. unfold closer. lia. Qed.

Lemma not_closer_le target a b :
  closer target a b = false → (Z.abs (b - target) ≤ Z.abs (a - target))%Z.
Proof. unfold closer. lia. Qed.

(** The scan returns a position of the index whose label is at least as
    close to the target as every label seen. *)
Lemma nearest_from_spec target (done l : list Z) best :
  match best with
  | Some (j, b) =>
      (done ++ l) !! j = Some b
      ∧ ∀ t, t ∈ done → (Z.abs (b - target) ≤ Z.abs (t - target))%Z
  | None => done = []
  end →
  match nearest_from target l (length done) best with
  | Some (j, b) =>
      (done ++ l) !! j = Some b
      ∧ ∀ t, t ∈ done ++ l → (Z.abs (b - target) ≤ Z.abs (t - target))%Z
  | None => done ++ l = []
  end.
Proof.
  revert done best. induction l as [|a l IH]; intros done best Hbest; simpl.
  - rewrite app_nil_r in *. by destruct best as [[j b]|].
  - specialize (IH (done ++ [a])).
    rewrite length_app, Nat.add_1_r, <-app_assoc in IH. simpl in IH.
    apply IH. clear IH.
    destruct best as [[j b]|].
    + destruct Hbest as [Hj Hmin].
      destruct (closer target a b) eqn:Hcl.
      * split; [by apply list_lookup_middle|].
        intros t [Ht| ->%list_elem_of_singleton]%elem_of_app; [|lia].
        apply closer_le in Hcl. specialize (Hmin t Ht). lia.
      * split; [done|].
        intros t [Ht| ->%list_elem_of_singleton]%elem_of_app; [by apply Hmin|].
        by apply not_closer_le.
    + subst done. simpl. split; [done|].
      intros t ->%list_elem_of_singleton. lia.
Qed.

Lemma get_indexer_nearest_spec (idx : list Z) when :
  idx ≠ [] →
  NoDup idx →
  increasing idx || decreasing idx = true →
  ∃ i label,
    get_indexer_nearest idx when = Ok (Z.of_nat i)
    ∧ idx !! i = Some label
    ∧ ∀ t, t ∈ idx → (Z.abs (label - when) ≤ Z.abs (t - when))%Z.
Proof.
  intros Hne Hnodup Hmono. unfold get_indexer_nearest.
  rewrite decide_True by done. rewrite Hmono.
  assert (Hspec := nearest_from_spec when [] idx None eq_refl).
  simpl in Hspec.
  destruct (nearest_from when idx 0 None) as [[i label]|]; [|done].
  destruct Hspec as [Hi Hmin]. by exists i, label.
Qed.

(** C9 (as the code has it). Once [price_history] has returned a history,
    [price_point_strict] raises [KeyError] exactly when [when] is not a label
    of the history's index, whatever the dataframe; when it is a label of an
    index without repeated labels, the result is the [PricePoint] of that
    row: its "close" value, the label [when] itself, and the history's
    currency. [price_point], with the same arguments, returns for every
    non-empty history whose index has no repeated label and is in monotonic
    order the [PricePoint] of a row whose label is at least as close to
    [when] as every label of the index. *)
Theorem price_point_strict_and_nearest q when s c (σ σ' : State float) ph :
  reachable σ →
  price_history (positional q s c) σ = (σ', Ok ph) →
  ∃ df,
    deref σ' (ph_df ph) = Ok df
    ∧ ((price_point_strict q when s c σ).2 = Raise KeyError ↔ when ∉ index df)
    ∧ (NoDup (index df) →
       ∀ price, (when, price) ∈ df →
         (price_point_strict q when s c σ).2
         = Ok {| pp_when := when; pp_price := price;
                 pp_currency := ph_currency ph |})
    ∧ (time_series df →
       df ≠ [] →
       ∃ row,
         row ∈ df
         ∧ (price_point q when s c σ).2
           = Ok {| pp_when := row.1; pp_price := row.2;
                   pp_currency := ph_currency ph |}
         ∧ ∀ t, t ∈ index df →
             (Z.abs (row.1 - when) ≤ Z.abs (t - when))%Z).
Proof.
  intros Hreach Hrun.
  assert (Hok : cache_ok (price_history (positional q s c) σ).1)
    by by apply cache_ok_price_history, reachable_cache_ok.
  rewrite Hrun in Hok. simpl in Hok.
  destruct (Hok _ _ (price_history_cached _ _ _ _ Hrun)) as [Href _].
  apply lookup_lt_is_Some_2 in Href as [df Hdf].
  assert (Hderef : deref σ' (ph_df ph) = Ok df) by (unfold deref; by rewrite Hdf).
  exists df. split; [done|]. split_and!.
  - unfold Price.price_point_strict. rewrite Hrun. simpl. rewrite Hderef. simpl.
    rewrite <-loc_KeyError.
    destruct (loc df when) as [row|e]; simpl; [done|]. naive_solver.
  - intros Hnodup price Hin.
    unfold Price.price_point_strict. rewrite Hrun. simpl. rewrite Hderef. simpl.
    by rewrite (loc_present df when price).
  - intros [Hnodup Hmono] Hne.
    destruct (get_indexer_nearest_spec (index df) when)
      as (i & label & Hidx & Hi & Hmin); [by destruct df|done|done|].
    unfold index in Hi. rewrite list_lookup_fmap in Hi.
    destruct (df !! i) as [row|] eqn:Hrow; [|done].
    injection Hi as <-. exists row. split_and!.
    + by eapply list_elem_of_lookup_2.
    + unfold Price.price_point. rewrite Hrun. simpl. rewrite Hderef. simpl.
      rewrite Hidx. simpl. by rewrite (iloc_position df i row).
    + done.
Qed.

(** *** Further properties of the price functions *)

Lemma history_frame_exists q s c (σ σ' : State float) ph :
  reachable σ →
  price_history (positional q s c) σ = (σ', Ok ph) →
  ∃ df, deref σ' (ph_df ph) = Ok df.
Proof.
  intros Hreach Hrun.
  assert (Hok : cache_ok (price_history (positional q s c) σ).1)
    by by apply cache_ok_price_history, reachable_cache_ok.
  rewrite Hrun in Hok. simpl in Hok.
  destruct (Hok _ _ (price_history_cached _ _ _ _ Hrun)) as [Href _].
  apply lookup_lt_is_Some_2 in Href as [df Hdf].
  exists df. unfold deref. by rewrite Hdf.
Qed.

Lemma iloc_last (df : Frame float) :
  iloc df (-1) = match last df with
                 | Some row => Ok row
                 | None => Raise IndexError
                 end.
Proof.
  unfold iloc. rewrite last_lookup.
  destruct df as [|row df]; [done|].
  assert (Hneg : (-1 <? 0)%Z = true) by done. rewrite Hneg.
  assert (Hlen : (Z.of_nat (length (row :: df)) + -1)%Z
                 = Z.of_nat (pred (length (row :: df))))
    by (cbn [length Init.Nat.pred]; lia).
  rewrite Hlen.
  assert (Hin : ((0 <=? Z.of_nat (pred (length (row :: df))))
                 && (Z.of_nat (pred (length (row :: df)))
                     <? Z.of_nat (length (row :: df))))%Z = true).
  { cbn [length Init.Nat.pred]. apply andb_true_intro.
    split; [apply Z.leb_le|apply Z.ltb_lt]; lia. }
  rewrite Hin, Nat2Z.id.
  destruct ((row :: df) !! pred (length (row :: df))) as [row'|] eqn:Hrow;
    [done|].
  apply lookup_ge_None in Hrow. simpl in Hrow. lia.
Qed.

(** X1. Once [price_history] has returned a history, [price_latest] returns
    the [PricePoint] of the last row of that history (its label, its "close"
    value, the history's currency) and raises [IndexError] when the history
    has no row; it leaves the state as [price_history] left it. *)
Theorem price_latest_last_row q s c (σ σ' : State float) ph :
  reachable σ →
  price_history (positional q s c) σ = (σ', Ok ph) →
  ∃ df,
    deref σ' (ph_df ph) = Ok df
    ∧ price_latest q s c σ
      = (σ', match last df with
             | Some row => Ok {| pp_when := row.1; pp_price := row.2;
                                 pp_currency := ph_currency ph |}
             | None => Raise IndexError
             end).
Proof.
  intros Hreach Hrun.
  destruct (history_frame_exists _ _ _ _ _ _ Hreach Hrun) as [df Hdf].
  exists df. split; [done|].
  rewrite (price_latest_unfold _ _ _ _ _ _ _ Hrun Hdf), iloc_last.
  by destruct (last df).
Qed.

(** X2. For a history that is a time series, [price_point] at a point in
    time that is a label of the index returns the row of that very label:
    where [price_point_strict] returns, [price_point] returns the same. *)
Theorem price_point_exact_label q when s c (σ σ' : State float) ph df price :
  price_history (positional q s c) σ = (σ', Ok ph) →
  deref σ' (ph_df ph) = Ok df →
  time_series df →
  (when, price) ∈ df →
  (price_point q when s c σ).2
  = Ok {| pp_when := when; pp_price := price; pp_currency := ph_currency ph |}
  ∧ (price_point q when s c σ).2 = (price_point_strict q when s c σ).2.
Proof.
  intros Hrun Hderef [Hnodup Hmono] Hin.
  assert (Hlabel : when ∈ index df).
  { unfold index. apply list_elem_of_fmap. by exists (when, price). }
  destruct (get_indexer_nearest_spec (index df) when)
    as (i & label & Hidx & Hi & Hmin);
    [by intros Hnil; rewrite Hnil in Hlabel; apply not_elem_of_nil in Hlabel
    |done|done|].
  assert (label = when) as -> by (specialize (Hmin when Hlabel); lia).
  unfold index in Hi. rewrite list_lookup_fmap in Hi.
  destruct (df !! i) as [row|] eqn:Hrow; [|done]. injection Hi as Hrow1.
  assert (Hrow_in : row ∈ filter (λ r : Z * float, r.1 = when) df).
  { apply list_elem_of_filter. split; [done|]. by eapply list_elem_of_lookup_2. }
  rewrite (filter_label_unique df when price Hnodup Hin) in Hrow_in.
  apply list_elem_of_singleton in Hrow_in. subst row.
  assert (Hpoint : (price_point q when s c σ).2
                   = Ok {| pp_when := when; pp_price := price;
                           pp_currency := ph_currency ph |}).
  { unfold Price.price_point. rewrite Hrun. simpl. rewrite Hderef. simpl.
    rewrite Hidx. simpl. by rewrite (iloc_position df i (when, price)). }
  split; [done|]. rewrite Hpoint.
  unfold Price.price_point_strict. rewrite Hrun. simpl. rewrite Hderef. simpl.
  by rewrite (loc_present df when price).
Qed.

(** X3. On a history without rows every look-up raises: [price_point] and
    [price_latest] raise [IndexError] (position -1 of an empty dataframe)
    and [price_point_strict] raises [KeyError]. *)
Theorem empty_history_raises q when s c (σ σ' : State float) ph :
  price_history (positional q s c) σ = (σ', Ok ph) →
  deref σ' (ph_df ph) = Ok [] →
  (price_point q when s c σ).2 = Raise IndexError
  ∧ (price_latest q s c σ).2 = Raise IndexError
  ∧ (price_point_strict q when s c σ).2 = Raise KeyError.
Proof.
  intros Hrun Hderef.
  unfold Price.price_point, Price.price_latest, Price.price_point_strict.
  rewrite Hrun. simpl. by rewrite Hderef.
Qed.


(** Every function of the module leaves the dataframes that exist in place
    and adds at most one; likewise for the queries sent. *)
Lemma price_history_grows args (σ : State float) :
  heap σ `prefix_of` heap (price_history args σ).1
  ∧ length (heap (price_history args σ).1) ≤ S (length (heap σ))
  ∧ queries σ `prefix_of` queries (price_history args σ).1
  ∧ length (queries (price_history args σ).1) ≤ S (length (queries σ)).
Proof.
  unfold Price.price_history, custom_cache_wrapper,
    Price.price_history_function.
  destruct (cache σ !! args) as [ph|]; [simpl; by auto|].
  destruct (bind_arguments args) as [[[q s] c]|e]; [|simpl; by auto].
  unfold Price.price_history_body.
  destruct (get_source s) as [src|e]; [|simpl; by auto].
  destruct (get_price_history_bruteforcefully _ _ _ _) as [[df cur]|e]; simpl;
    rewrite ?length_app; simpl.
  - split_and!; [by eexists|lia|by eexists|lia].
  - split_and!; [done|lia|by eexists|lia].
Qed.

(** X7. Whatever function of the module is called, the dataframes that exist
    stay where they are with the content they have, at most one dataframe is
    allocated, and at most one query is sent to a source. *)
Theorem call_only_appends (σ σ' : State float) :
  call σ σ' →
  (∀ r df, heap σ !! r = Some df → heap σ' !! r = Some df)
  ∧ length (heap σ') ≤ S (length (heap σ))
  ∧ queries σ `prefix_of` queries σ'
  ∧ length (queries σ') ≤ S (length (queries σ)).
Proof.
  intros (args & ->)%call_price_history_state.
  destruct (price_history_grows args σ) as ([k Hk] & ? & ? & ?).
  split_and!; [|done..].
  intros r df Hr. rewrite Hk. by apply lookup_app_l_Some.
Qed.

(** No two cache entries refer to the same dataframe. *)
Lemma reachable_refs_distinct (σ : State float) :
  reachable σ →
  ∀ k1 k2 ph1 ph2,
    cache σ !! k1 = Some ph1 → cache σ !! k2 = Some ph2 →
    ph_df ph1 = ph_df ph2 → k1 = k2.
Proof.
  unfold Price.reachable. revert σ.
  apply (rtc_ind_r (λ σ : State float,
           ∀ k1 k2 ph1 ph2,
             cache σ !! k1 = Some ph1 → cache σ !! k2 = Some ph2 →
             ph_df ph1 = ph_df ph2 → k1 = k2)).
  - intros k1 k2 ph1 ph2. unfold initial. simpl. by rewrite lookup_empty.
  - intros σ1 σ2 Hreach Hstep IH.
    assert (Hok : cache_ok σ1) by by apply reachable_cache_ok.
    destruct Hstep as [σ1 σ2 Hcall|r f σ1 _]; [|done].
    apply call_price_history_state in Hcall as (args & ->).
    destruct (price_history args σ1) as [σ' [ph|e]] eqn:Hrun; simpl.
    + apply price_history_call_Ok in Hrun
        as [[_ ->]|(_ & q & s & c & src & df & cur & _ & _ & _ & -> & ->)];
        [done|].
      intros k1 k2 ph1 ph2. simpl.
      destruct (decide (k1 = args)) as [->|Hne1];
        destruct (decide (k2 = args)) as [->|Hne2]; [done| | |].
      * rewrite lookup_insert_eq, lookup_insert_ne by done.
        intros [= <-] Hc2 Href. simpl in Href.
        destruct (Hok _ _ Hc2). lia.
      * rewrite lookup_insert_eq, lookup_insert_ne by done.
        intros Hc1 [= <-] Href. simpl in Href.
        destruct (Hok _ _ Hc1). lia.
      * rewrite !lookup_insert_ne by done. apply IH.
    + apply price_history_Raise in Hrun as [_ Hcache]. rewrite Hcache.
      apply IH.
Qed.

(** X5. Histories cached under different argument tuples never share a
    dataframe: writing into the dataframe of one leaves the dataframe of every
    other as it is. *)
Theorem histories_do_not_alias (σ : State float) k1 k2 ph1 ph2 :
  reachable σ →
  cache σ !! k1 = Some ph1 →
  cache σ !! k2 = Some ph2 →
  k1 ≠ k2 →
  ph_df ph1 ≠ ph_df ph2
  ∧ ∀ df, deref (mutate (ph_df ph1) df σ) (ph_df ph2) = deref σ (ph_df ph2).
Proof.
  intros Hreach Hc1 Hc2 Hne.
  assert (Hrefs : ph_df ph1 ≠ ph_df ph2).
  { intros Heq. apply Hne.
    by eapply (reachable_refs_distinct σ Hreach k1 k2 ph1 ph2). }
  split; [done|]. intros df. unfold deref, mutate. simpl.
  by rewrite list_lookup_insert_ne.
Qed.


End WithSources.

(** *** The functions on the sample source *)

Abbreviation sample_price_history :=
  (price_history sample_get_source sample_fetch).
Abbreviation sample_price_latest :=
  (price_latest sample_get_source sample_fetch).
Abbreviation sample_price_point :=
  (price_point sample_get_source sample_fetch).
Abbreviation sample_price_point_strict :=
  (price_point_strict sample_get_source sample_fetch).

(** The first call queries the source, allocates the copy and upper-cases
    the currency; the second is served from the cache. *)
Example price_history_twice :
  sample_price_history (positional "AAPL" "yahoo" "USD") initial
  = ({| heap := [sample_frame];
        cache := {[ positional "AAPL" "yahoo" "USD"
                    := {| ph_df := 0; ph_currency := "USD" |} ]};
        queries := [("AAPL", "yahoo", "USD")] |},
     Ok {| ph_df := 0; ph_currency := "USD" |})
  ∧ sample_price_history (positional "AAPL" "yahoo" "USD")
      (sample_price_history (positional "AAPL" "yahoo" "USD") initial).1
    = ((sample_price_history (positional "AAPL" "yahoo" "USD") initial).1,
       Ok {| ph_df := 0; ph_currency := "USD" |}).
Proof. split; vm_compute; reflexivity. Qed.

(** An exception is not cached: a ticker the source does not know is asked
    for again by the next call. *)
Example price_history_raises_twice :
  queries
    (sample_price_history (positional "MSFT" "yahoo" "USD")
       (sample_price_history (positional "MSFT" "yahoo" "USD") initial).1).1
  = [("MSFT", "yahoo", "USD"); ("MSFT", "yahoo", "USD")].
Proof. vm_compute. reflexivity. Qed.

(** The call forms are separate keys: after [price_history("AAPL")] has
    returned, [price_latest("AAPL", "yahoo", "USD")] finds nothing under the
    three positional arguments it passes on and asks the source again. *)
Example lookup_after_short_call :
  queries
    (sample_price_latest "AAPL" "yahoo" "USD"
       (sample_price_history (["AAPL"], []) initial).1).1
  = [("AAPL", "yahoo", "USD"); ("AAPL", "yahoo", "USD")].
Proof. vm_compute. reflexivity. Qed.

(** A call that cannot be bound to the parameters raises [TypeError] and
    reaches no source. *)
Example price_history_bad_call :
  sample_price_history (["AAPL"], [("query", "MSFT")]) initial
  = (initial, Raise TypeError)
  ∧ sample_price_history (["AAPL"; "yahoo"; "USD"; "EUR"], []) initial
    = (initial, Raise TypeError)
  ∧ sample_price_history ([], [("source", "yahoo")]) initial
    = (initial, Raise TypeError)
  ∧ sample_price_history (["AAPL"], [("currency", "USD")]) initial
    = (initial, Raise TypeError).
Proof. split_and!; vm_compute; reflexivity. Qed.

(** C5 (the claim as stated fails). [price_history("AAPL")],
    [price_history("AAPL", source="yahoo")] and
    [price_history("AAPL", "yahoo", "USD")] ask for the same query, source
    and currency preference, yet each is filed under a key of its own: every
    one of them queries the source and returns another dataframe object. And
    with a source whose answer changes from one query to the next, the
    memoised function returns the history it stored where the function it
    wraps returns the new one. *)
Lemma price_history_memoized_counterexample :
  bind_arguments (["AAPL"], []) = Ok ("AAPL", "yahoo", "USD")
  ∧ bind_arguments (["AAPL"], [("source", "yahoo")])
    = Ok ("AAPL", "yahoo", "USD")
  ∧ bind_arguments (positional "AAPL" "yahoo" "USD")
    = Ok ("AAPL", "yahoo", "USD")
  ∧ (sample_price_history (["AAPL"], []) initial).2
    = Ok {| ph_df := 0; ph_currency := "USD" |}
  ∧ (sample_price_history (["AAPL"], [("source", "yahoo")])
       (sample_price_history (["AAPL"], []) initial).1).2
    = Ok {| ph_df := 1; ph_currency := "USD" |}
  ∧ (sample_price_history (positional "AAPL" "yahoo" "USD")
       (sample_price_history (["AAPL"], [("source", "yahoo")])
          (sample_price_history (["AAPL"], []) initial).1).1).2
    = Ok {| ph_df := 2; ph_currency := "USD" |}
  ∧ queries
      (sample_price_history (positional "AAPL" "yahoo" "USD")
         (sample_price_history (["AAPL"], [("source", "yahoo")])
            (sample_price_history (["AAPL"], []) initial).1).1).1
    = [("AAPL", "yahoo", "USD"); ("AAPL", "yahoo", "USD");
       ("AAPL", "yahoo", "USD")]
  ∧ observe
      (price_history sample_get_source sample_fetch_live
         (positional "AAPL" "yahoo" "USD")
         (price_history sample_get_source sample_fetch_live
            (positional "AAPL" "yahoo" "USD") initial).1)
    = Ok (Ok [(20200102%Z, 0%Z)], "USD")
  ∧ observe
      (price_history_function sample_get_source sample_fetch_live
         (positional "AAPL" "yahoo" "USD")
         (price_history sample_get_source sample_fetch_live
            (positional "AAPL" "yahoo" "USD") initial).1)
    = Ok (Ok [(20200102%Z, 1%Z)], "USD").
Proof. split_and!; vm_compute; reflexivity. Qed.

(** On the sample source, a call written with a keyword is served from the
    cache when it is written the same way again. *)
Lemma price_history_memoized_witness :
  sample_price_history (["AAPL"], [("source", "yahoo")])
    (sample_price_history (["AAPL"], [("source", "yahoo")]) initial).1
  = ((sample_price_history (["AAPL"], [("source", "yahoo")]) initial).1,
     Ok {| ph_df := 0; ph_currency := "USD" |})
  ∧ queries (sample_price_history (["AAPL"], [("source", "yahoo")]) initial).1
    = [("AAPL", "yahoo", "USD")].
Proof.
  destruct (price_history_memoized sample_get_source sample_fetch
              (["AAPL"], [("source", "yahoo")]) initial) as [Hsame _].
  destruct (Hsame (sample_price_history (["AAPL"], [("source", "yahoo")])
                     initial).1
                  {| ph_df := 0; ph_currency := "USD" |})
    as [Hqueries Hagain]; [vm_compute; reflexivity|].
  split.
  - apply Hagain, rtc_refl.
  - destruct Hqueries as [Hq|(key & Hkey & Hq)]; [vm_compute in Hq; done|].
    vm_compute in Hkey. injection Hkey as <-. exact Hq.
Defined.

(** A label with two equally close neighbours resolves to the larger one. *)
Example nearest_tie : get_indexer_nearest [1; 3; 7]%Z 2 = Ok 1%Z.
Proof. vm_compute. reflexivity. Qed.

Example nearest_unsorted :
  get_indexer_nearest [1; 7; 3]%Z 2 = Raise ValueError.
Proof. vm_compute. reflexivity. Qed.

Example price_point_nearest :
  (sample_price_point "AAPL" 20200104 "yahoo" "USD" initial).2
  = Ok {| pp_when := 20200103; pp_price := 74%Z; pp_currency := "USD" |}.
Proof. vm_compute. reflexivity. Qed.

Lemma cached_frame_is_shared_witness :
  (sample_price_latest "AAPL" "yahoo" "USD" initial).2
  = Ok {| pp_when := 20200106; pp_price := 75%Z; pp_currency := "USD" |}
  ∧ (sample_price_latest "AAPL" "yahoo" "USD"
       (mutate 0 [(20200106, 0)%Z]
          (sample_price_history (positional "AAPL" "yahoo" "USD") initial).1)).2
    = Ok {| pp_when := 20200106; pp_price := 0%Z; pp_currency := "USD" |}.
Proof.
  split; [vm_compute; reflexivity|].
  destruct (cached_frame_is_shared sample_get_source sample_fetch
              "AAPL" "yahoo" "USD" initial
              (sample_price_history (positional "AAPL" "yahoo" "USD") initial).1
              {| ph_df := 0; ph_currency := "USD" |}
              [(20200106, 0)%Z])
    as (_ & _ & _ & Hlatest).
  - apply rtc_refl.
  - vm_compute. reflexivity.
  - simpl ph_df in Hlatest. rewrite Hlatest. reflexivity.
Defined.


Lemma sample_frame_time_series : time_series sample_frame.
Proof.
  split; [|reflexivity]. unfold sample_frame, index. simpl.
  repeat (apply NoDup_cons; split; [set_solver|]). apply NoDup_nil_2.
Qed.

Lemma price_point_strict_and_nearest_witness :
  (sample_price_point_strict "AAPL" 20200104 "yahoo" "USD" initial).2
  = Raise KeyError
  ∧ (sample_price_point_strict "AAPL" 20200103 "yahoo" "USD" initial).2
    = Ok {| pp_when := 20200103; pp_price := 74%Z; pp_currency := "USD" |}
  ∧ ∃ row,
      row ∈ sample_frame
      ∧ (sample_price_point "AAPL" 20200105 "yahoo" "USD" initial).2
        = Ok {| pp_when := row.1; pp_price := row.2; pp_currency := "USD" |}
      ∧ (Z.abs (row.1 - 20200105) ≤ 1)%Z.
Proof.
  split_and!.
  - destruct (price_point_strict_and_nearest sample_get_source sample_fetch
                "AAPL" 20200104%Z "yahoo" "USD" initial
                (sample_price_history (positional "AAPL" "yahoo" "USD") initial).1
                {| ph_df := 0; ph_currency := "USD" |})
      as (df & Hdf & Hstrict & _).
    + apply rtc_refl.
    + vm_compute. reflexivity.
    + apply Hstrict. vm_compute in Hdf. injection Hdf as <-.
      vm_compute. set_solver.
  - destruct (price_point_strict_and_nearest sample_get_source sample_fetch
                "AAPL" 20200103%Z "yahoo" "USD" initial
                (sample_price_history (positional "AAPL" "yahoo" "USD") initial).1
                {| ph_df := 0; ph_currency := "USD" |})
      as (df & Hdf & _ & Hpresent & _).
    + apply rtc_refl.
    + vm_compute. reflexivity.
    + vm_compute in Hdf. injection Hdf as <-.
      apply (Hpresent (proj1 sample_frame_time_series) 74%Z).
      unfold sample_frame. set_solver.
  - destruct (price_point_strict_and_nearest sample_get_source sample_fetch
                "AAPL" 20200105%Z "yahoo" "USD" initial
                (sample_price_history (positional "AAPL" "yahoo" "USD")
                   initial).1
                {| ph_df := 0; ph_currency := "USD" |})
      as (df & Hdf & _ & _ & Hnearest).
    + apply rtc_refl.
    + vm_compute. reflexivity.
    + vm_compute in Hdf. injection Hdf as <-.
      destruct (Hnearest sample_frame_time_series) as (row & Hin & Hpoint & Hmin);
        [done|].
      exists row. split_and!; [done|done|].
      specialize (Hmin 20200106%Z). etrans; [apply Hmin|done].
      unfold sample_frame, index. set_solver.
Defined.

(** C9 (the claim as stated fails). The claim promises a [PricePoint] for
    every label of the index and for every non-empty history. A history whose
    rows are not in the order of their labels is not empty, and [price_point]
    raises [ValueError] on it; on a history that lists a day twice,
    [price_point_strict] at that day raises [AttributeError] although the
    label is in the index, and [price_point] raises as well. *)
Lemma price_point_strict_and_nearest_counterexample :
  (price_history sample_get_source sample_fetch_unsorted
     (positional "AAPL" "yahoo" "USD") initial).2
  = Ok {| ph_df := 0; ph_currency := "USD" |}
  ∧ deref (price_history sample_get_source sample_fetch_unsorted
             (positional "AAPL" "yahoo" "USD") initial).1 0
    = Ok sample_frame_unsorted
  ∧ sample_frame_unsorted ≠ []
  ∧ (price_point sample_get_source sample_fetch_unsorted
       "AAPL" 20200103 "yahoo" "USD" initial).2 = Raise ValueError
  ∧ deref (price_history sample_get_source sample_fetch_repeated
             (positional "AAPL" "yahoo" "USD") initial).1 0
    = Ok sample_frame_repeated
  ∧ (20200103%Z, 74%Z) ∈ sample_frame_repeated
  ∧ (price_point_strict sample_get_source sample_fetch_repeated
       "AAPL" 20200103 "yahoo" "USD" initial).2 = Raise AttributeError
  ∧ (price_point sample_get_source sample_fetch_repeated
       "AAPL" 20200103 "yahoo" "USD" initial).2 = Raise OtherError.
Proof.
  split_and!; try (vm_compute; reflexivity); [done|].
  unfold sample_frame_repeated. set_solver.
Qed.

(** The state after asking for the sample ticker in two currencies. *)
Lemma two_histories_reachable :
  reachable sample_get_source sample_fetch
    (sample_price_history (positional "AAPL" "yahoo" "CHF")
       (sample_price_history (positional "AAPL" "yahoo" "USD") initial).1).1.
Proof.
  unfold reachable. eapply rtc_l; [|eapply rtc_l; [|apply rtc_refl]].
  - apply step_call.
    apply (call_price_history _ _ _ _ (positional "AAPL" "yahoo" "USD")).
  - apply step_call.
    apply (call_price_history _ _ _ _ (positional "AAPL" "yahoo" "CHF")).
Qed.

Lemma price_latest_last_row_witness :
  sample_price_latest "AAPL" "yahoo" "USD" initial
  = ((sample_price_history (positional "AAPL" "yahoo" "USD") initial).1,
     Ok {| pp_when := 20200106; pp_price := 75%Z; pp_currency := "USD" |}).
Proof.
  destruct (price_latest_last_row sample_get_source sample_fetch
              "AAPL" "yahoo" "USD" initial
              (sample_price_history (positional "AAPL" "yahoo" "USD") initial).1
              {| ph_df := 0; ph_currency := "USD" |})
    as (df & Hdf & Hlatest).
  - apply rtc_refl.
  - vm_compute. reflexivity.
  - vm_compute in Hdf. injection Hdf as <-. rewrite Hlatest. reflexivity.
Defined.

Lemma price_point_exact_label_witness :
  (sample_price_point "AAPL" 20200103 "yahoo" "USD" initial).2
  = Ok {| pp_when := 20200103; pp_price := 74%Z; pp_currency := "USD" |}.
Proof.
  apply (price_point_exact_label sample_get_source sample_fetch
           "AAPL" 20200103%Z "yahoo" "USD" initial
           (sample_price_history (positional "AAPL" "yahoo" "USD") initial).1
           {| ph_df := 0; ph_currency := "USD" |} sample_frame 74%Z).
  - vm_compute. reflexivity.
  - vm_compute. reflexivity.
  - apply sample_frame_time_series.
  - unfold sample_frame. set_solver.
Defined.

Lemma empty_history_raises_witness :
  (price_point sample_get_source sample_fetch_empty
     "AAPL" 20200103 "yahoo" "USD" initial).2 = Raise IndexError
  ∧ (price_latest sample_get_source sample_fetch_empty
       "AAPL" "yahoo" "USD" initial).2 = Raise IndexError
  ∧ (price_point_strict sample_get_source sample_fetch_empty
       "AAPL" 20200103 "yahoo" "USD" initial).2 = Raise KeyError.
Proof.
  apply (empty_history_raises sample_get_source sample_fetch_empty
           "AAPL" 20200103%Z "yahoo" "USD" initial
           (price_history sample_get_source sample_fetch_empty
              (positional "AAPL" "yahoo" "USD") initial).1
           {| ph_df := 0; ph_currency := "USD" |}).
  - vm_compute. reflexivity.
  - vm_compute. reflexivity.
Defined.


Lemma histories_do_not_alias_witness :
  deref
    (mutate 0 []
       (sample_price_history (positional "AAPL" "yahoo" "CHF")
          (sample_price_history (positional "AAPL" "yahoo" "USD") initial).1).1) 1
  = Ok sample_frame.
Proof.
  destruct (histories_do_not_alias sample_get_source sample_fetch
              (sample_price_history (positional "AAPL" "yahoo" "CHF")
                 (sample_price_history (positional "AAPL" "yahoo" "USD") initial).1).1
              (positional "AAPL" "yahoo" "USD")
              (positional "AAPL" "yahoo" "CHF")
              {| ph_df := 0; ph_currency := "USD" |}
              {| ph_df := 1; ph_currency := "USD" |}) as [_ Hkept].
  - apply two_histories_reachable.
  - vm_compute. reflexivity.
  - vm_compute. reflexivity.
  - done.
  - simpl ph_df in Hkept. rewrite Hkept. vm_compute. reflexivity.
Defined.


Lemma call_only_appends_witness :
  length (heap (sample_price_history (positional "AAPL" "yahoo" "USD") initial).1) ≤ 1
  ∧ length (queries (sample_price_history (positional "AAPL" "yahoo" "USD") initial).1) ≤ 1.
Proof.
  destruct (call_only_appends sample_get_source sample_fetch initial
              (sample_price_history (positional "AAPL" "yahoo" "USD") initial).1)
    as (_ & Hheap & _ & Hqueries).
  - apply (call_price_history _ _ _ _ (positional "AAPL" "yahoo" "USD")).
  - split; [exact Hheap|exact Hqueries].
Defined.

End PriceSpec.

(** ** Properties of [tessa/symbol/extended_symbol.py] *)

Module ExtendedSymbolSpec.
Import ExtendedSymbol.

Lemma append_empty_r (s : string) : s +:+ "" = s.
Proof.
  induction s as [|a s IH]; [done|].
  change (String a (s +:+ "") = String a s). by rewrite IH.
Qed.

Lemma append_eq_self (s t : string) : s +:+ t = s → t = "".
Proof.
  induction s as [|a s IH]; [done|].
  change (String a (s +:+ t) = String a s → t = ""). intros [= H]. auto.
Qed.

Lemma join_snoc (sep : string) (l : list string) (s : string) :
  l ≠ [] → join sep (l ++ [s]) = join sep l +:+ sep +:+ s.
Proof.
  induction l as [|a l IH]; [done|]. intros _.
  destruct l as [|b l]; [done|].
  change (a +:+ sep +:+ join sep ((b :: l) ++ [s])
          = (a +:+ sep +:+ join sep (b :: l)) +:+ sep +:+ s).
  rewrite IH by done.
  by rewrite !InvestingSearch.append_assoc.
Qed.

(** X17. [get_strategy_string] returns the strategies, joined by ", " when
    they are a list, followed by the separator and the comment when there is
    a comment: a comment that is [None] or empty adds nothing, not even the
    separator. A list of one strategy reads as that strategy alone, and each
    further strategy adds ", " and its text at the end. *)
Theorem strategy_string_shape (self : ExtendedSymbol) :
  let text := match strategy self with
              | StrategyList l => join ", " l
              | StrategyStr s => s
              end in
  (∃ suffix,
     get_strategy_string self = text +:+ suffix
     ∧ (suffix = "" ↔
        strategy_comments self = None ∨ strategy_comments self = Some "")
     ∧ ∀ c, strategy_comments self = Some c → c ≠ "" →
            suffix = comment_separator +:+ c)
  ∧ (∀ s, get_strategy_string
            {| strategy := StrategyList [s];
               strategy_comments := strategy_comments self |}
          = get_strategy_string
              {| strategy := StrategyStr s;
                 strategy_comments := strategy_comments self |})
  ∧ (∀ l s, l ≠ [] → join ", " (l ++ [s]) = join ", " l +:+ ", " +:+ s).
Proof.
  intros text. split_and!.
  - unfold get_strategy_string. fold text.
    destruct (strategy_comments self) as [c|].
    + destruct (decide (c = "")) as [->|Hc].
      * exists "". rewrite append_empty_r. naive_solver.
      * exists (comment_separator +:+ c). split_and!; [done| |naive_solver].
        split; [done|]. naive_solver.
    + exists "". rewrite append_empty_r. naive_solver.
  - done.
  - intros l s Hl. by apply join_snoc.
Qed.

Example strategy_string_list :
  get_strategy_string
    {| strategy := StrategyList ["hold"; "rebalance"];
       strategy_comments := Some "yearly" |}
  = "hold, rebalance" +:+ comment_separator +:+ "yearly".
Proof. reflexivity. Qed.

End ExtendedSymbolSpec.
